(** * What-if scenario utilities ([src/util.py]): model and properties

    A shallow embedding of the queue-parameter estimator, the network
    construction of [simulate_queue], the [ShiftedExponential] distribution
    and the two result tables, followed by the properties established about
    them.

    Numbers.  Python and numpy floats are modelled as exact rationals
    extended with the IEEE-754 special values (signed zero, the infinities
    and NaN): rounding, overflow and underflow are abstracted, the
    exceptional behaviour of division is not.  A finite result is kept in
    lowest terms, so that two computations of the same number give the same
    term. *)

From Stdlib Require Import Ascii ZArith QArith Qminmax Qabs Lqa Reals Lra Lia.
From stdpp Require Import base option list sorting strings pretty gmap.

#[local] Open Scope Q_scope.

(** ** numpy's [float64] *)

Inductive float64 : Type :=
  | Fin (q : Q)      (** a finite number; [Fin 0] is [+0.0] *)
  | NegZero          (** [-0.0] *)
  | PInf             (** [inf] *)
  | NInf             (** [-inf] *)
  | NaN.

(** The sign bit. *)
Definition sgn (x : float64) : bool :=
  match x with
  | Fin q => if Qlt_le_dec q 0 then true else false
  | NegZero | NInf => true
  | PInf | NaN => false
  end.

Definition is_zero (x : float64) : bool :=
  match x with Fin q => Qeq_bool q 0 | NegZero => true | _ => false end.

Definition is_inf (x : float64) : bool :=
  match x with PInf | NInf => true | _ => false end.

Definition is_nan (x : float64) : bool :=
  match x with NaN => true | _ => false end.

Definition zero (s : bool) : float64 := if s then NegZero else Fin 0.
Definition inf (s : bool) : float64 := if s then NInf else PInf.

(** The rational a finite value stands for (both zeros stand for 0). *)
Definition qval (x : float64) : Q :=
  match x with Fin q => q | _ => 0 end.

Definition np_neg (x : float64) : float64 :=
  match x with
  | Fin q => if Qeq_bool q 0 then NegZero else Fin (Qred (- q))
  | NegZero => Fin 0
  | PInf => NInf
  | NInf => PInf
  | NaN => NaN
  end.

(** [x + y]: opposite infinities give NaN; an exact zero sum is [+0.0]
    unless both operands are [-0.0] (round to nearest). *)
Definition np_add (x y : float64) : float64 :=
  if is_nan x || is_nan y then NaN
  else if is_inf x then
    (if is_inf y && negb (Bool.eqb (sgn x) (sgn y)) then NaN else x)
  else if is_inf y then y
  else if is_zero x && is_zero y then zero (sgn x && sgn y)
  else Fin (Qred (qval x + qval y)).

Definition np_sub (x y : float64) : float64 := np_add x (np_neg y).

(** [x * y]: zero times infinity is NaN; the sign of a zero or infinite
    product is the exclusive or of the operands' signs. *)
Definition np_mul (x y : float64) : float64 :=
  if is_nan x || is_nan y then NaN
  else
    let s := xorb (sgn x) (sgn y) in
    if is_inf x || is_inf y then
      (if is_zero x || is_zero y then NaN else inf s)
    else if is_zero x || is_zero y then zero s
    else Fin (Qred (qval x * qval y)).

(** [x / y] on numpy scalars: a zero divisor raises nothing, it gives an
    infinity (or NaN for [0/0]) and a warning. *)
Definition np_div (x y : float64) : float64 :=
  if is_nan x || is_nan y then NaN
  else
    let s := xorb (sgn x) (sgn y) in
    if is_inf x then (if is_inf y then NaN else inf s)
    else if is_inf y then zero s
    else if is_zero y then (if is_zero x then NaN else inf s)
    else if is_zero x then zero s
    else Fin (Qred (qval x / qval y)).

(** [x < y]; every comparison with NaN is false, the two zeros are equal. *)
Definition np_ltb (x y : float64) : bool :=
  match x, y with
  | NaN, _ | _, NaN => false
  | _, NInf => false
  | NInf, _ => true
  | PInf, _ => false
  | _, PInf => true
  | _, _ => negb (Qle_bool (qval y) (qval x))
  end.

(** Python's builtin [max(0, x)]: the first argument is kept unless a
    later one compares greater, so a NaN second argument yields [0]. *)
Definition py_max0 (x : float64) : float64 :=
  if np_ltb (Fin 0) x then x else Fin 0.

(** Equality of the numbers denoted, up to the representation of a
    rational. *)
Definition feq (x y : float64) : Prop :=
  match x, y with
  | Fin a, Fin b => a == b
  | NegZero, NegZero | PInf, PInf | NInf, NInf | NaN, NaN => True
  | _, _ => False
  end.

(** ** pandas: series *)

(** A float series, by position.  Missing entries are NaN. *)
Definition Series : Type := list float64.

Definition dropna (s : Series) : Series :=
  List.filter (fun x => negb (is_nan x)) s.

(** [Series.sum()], with the default [skipna=True]. *)
Definition Series_sum (s : Series) : float64 :=
  fold_left np_add (dropna s) (Fin 0).

(** [Series.mean()], with the default [skipna=True]: the mean of the
    entries that are not NaN, NaN when there is none.  [np.mean] of a
    series dispatches to this method. *)
Definition Series_mean (s : Series) : float64 :=
  match dropna s with
  | [] => NaN
  | v => np_div (Series_sum v) (Fin (Z.of_nat (length v) # 1))
  end.

Definition np_mean (s : Series) : float64 := Series_mean s.

(** [Series.min()], skipping NaN; NaN for a series with no value. *)
Definition Series_min (s : Series) : float64 :=
  match dropna s with
  | [] => NaN
  | x :: v => fold_left (fun m y => if np_ltb y m then y else m) v x
  end.

(** [series - scalar]. *)
Definition Series_sub (s : Series) (other : float64) : Series :=
  map (fun x => np_sub x other) s.

Definition Series_fillna (value : float64) (s : Series) : Series :=
  map (fun x => if is_nan x then value else x) s.

(** [series.div(other, fill_value=...)] for a scalar [other] that is not
    NaN: with a fill value the missing entries of the series are replaced
    by it before the division. *)
Definition Series_div (s : Series) (other : float64)
    (fill_value : option float64) : Series :=
  let filled :=
    match fill_value with
    | Some v => Series_fillna v s
    | None => s
    end in
  map (fun x => np_div x other) filled.

(** Timestamps are counted in nanoseconds since the epoch; a time
    difference is a number of nanoseconds, or [None] for NaT. *)
Definition Timestamp : Type := Z.
Definition Timedelta : Type := option Z.

Fixpoint diff_from (prev : Timestamp) (l : list Timestamp) : list Timedelta :=
  match l with
  | [] => []
  | t :: l' => Some (t - prev)%Z :: diff_from t l'
  end.

(** [series.diff()]: each entry minus its predecessor, NaT in first place. *)
Definition Series_diff (l : list Timestamp) : list Timedelta :=
  match l with
  | [] => []
  | t :: l' => None :: diff_from t l'
  end.

(** [.dt.total_seconds()]. *)
Definition total_seconds (d : Timedelta) : float64 :=
  match d with
  | None => NaN
  | Some ns => Fin (Qred (ns # 1000000000))
  end.

(** ** pandas: the historical dataset *)

(** One admission: the columns of [copd_clustered.csv] that the module
    reads. *)
Record Row : Type := mkRow {
  admission_date : Timestamp;
  true_los : Q;
  cluster : Z;
}.
Arguments mkRow _%_Z _%_Q _%_Z.

(** A frame is its rows in order, each under its index label. *)
Definition DataFrame : Type := list (Z * Row).

Definition label_le (x y : Z * Row) : Prop := (x.1 ≤ y.1)%Z.

#[global] Instance label_le_dec : RelDecision label_le.
Proof. intros x y. unfold label_le. apply _. Defined.

(** ** Exceptions, and the object store *)

Inductive exn : Type :=
  | NameError
  | IndexError
  | ZeroDivisionError
  | ValueError.

Inductive result (A : Type) : Type :=
  | Returns (a : A)
  | Raises (e : exn).
Arguments Returns {A} a.
Arguments Raises {A} e.

#[global] Instance result_ret : MRet result := λ A a, Returns a.

#[global] Instance result_bind : MBind result := λ A B f m,
  match m with
  | Returns a => f a
  | Raises e => Raises e
  end.

(** A computation over a state [S] that returns or raises. *)
Definition SR (S A : Type) : Type := S → result A * S.

#[global] Instance SR_ret {S} : MRet (SR S) := λ A a σ, (Returns a, σ).

#[global] Instance SR_bind {S} : MBind (SR S) := λ A B f m σ,
  match m σ with
  | (Returns a, σ') => f a σ'
  | (Raises e, σ') => (Raises e, σ')
  end.

Definition loc : Type := nat.

(** Frames live in a store and are passed by reference. *)
Abbreviation store := (gmap loc DataFrame).
Abbreviation M := (SR store).

(** A new object never reuses the identity of a live one. *)
Definition alloc (df : DataFrame) : M loc := λ σ,
  let l := fresh (dom σ) in (Returns l, <[l := df]> σ).

(** Reading through a reference.  (A reference to no object is ruled out
    by Python; the model gives it an exception of its own.) *)
Definition deref (l : loc) : M DataFrame := λ σ,
  match σ !! l with
  | Some df => (Returns df, σ)
  | None => (Raises NameError, σ)
  end.

(** [self.set_index(col)] with the default [inplace=False]: a new frame
    labelled by the column; the receiver is left as it is.  (pandas also
    drops the column from the new frame; nothing reads it afterwards.) *)
Definition set_index (self : loc) (col : Row → Z) : M loc :=
  df ← deref self; alloc (map (λ ir, (col ir.2, ir.2)) df).

(** [self.sort_index()] with the default [inplace=False]: a new frame with
    the rows in ascending order of their labels. *)
Definition sort_index (self : loc) : M loc :=
  df ← deref self; alloc (merge_sort label_le df).

(** [self.index.to_series()]. *)
Definition index_to_series (self : loc) : M (list Z) :=
  df ← deref self; mret (map fst df).

(** [self[col]], for a column of numbers. *)
Definition getitem (self : loc) (col : Row → Q) : M Series :=
  df ← deref self; mret (map (λ ir, Fin (col ir.2)) df).

(** [self[col]], for a column of integers. *)
Definition getitem_int (self : loc) (col : Row → Z) : M (list Z) :=
  df ← deref self; mret (map (λ ir, col ir.2) df).

Fixpoint filter_mask {A} (l : list A) (mask : list bool) : list A :=
  match l, mask with
  | x :: l', b :: mask' =>
      if b then x :: filter_mask l' mask' else filter_mask l' mask'
  | _, _ => []
  end.

(** [self[mask]] for a boolean mask: a new frame with the selected rows. *)
Definition getitem_mask (self : loc) (mask : list bool) : M loc :=
  df ← deref self; alloc (filter_mask df mask).

(** [series.nunique()]. *)
Definition nunique (s : list Z) : nat := length (remove_dups s).

(** ** [get_queue_params] *)

Record queue_params : Type := mkParams {
  arrival : float64;
  service : float64 * float64;
}.

(** Get the arrival and service parameters from [data]. *)
Definition get_queue_params (data : loc) (prop sigma : Q) : M queue_params :=
  indexed ← set_index data admission_date;
  sorted ← sort_index indexed;
  index ← index_to_series sorted;
  let inter_arrivals := Series_diff index in
  let interarrival_times :=
    Series_div (map total_seconds inter_arrivals)
               (Fin (24 * 60 * 60)) (Some (Fin 0)) in
  let arrival_rate := np_div (Fin sigma) (np_mean interarrival_times) in
  los ← getitem data true_los;
  let minimum_length := py_max0 (Series_min los) in
  los ← getitem data true_los;
  let shifted_lengths := Series_sub los minimum_length in
  let mean_shifted_length := Series_mean shifted_lengths in
  let service_rate :=
    np_div (Fin 1) (np_mul mean_shifted_length (Fin prop)) in
  mret {| arrival := arrival_rate;
          service := (service_rate, minimum_length) |}.

(** ** [ShiftedExponential] *)

(** [random.expovariate(lambd)] is [-log(1 - random()) / lambd] on Python
    floats, where [random()] is uniform on [[0, 1)]; a zero [lambd] raises.
    The generator is a state [RNG] with its [random] method. *)
Definition expovariate {RNG : Type} (random : RNG → R * RNG) (lambd : R)
    : SR RNG R := λ g,
  let (u, g') := random g in
  if Req_dec_T lambd 0 then (Raises ZeroDivisionError, g')
  else (Returns (- ln (1 - u) / lambd)%R, g').

Module ShiftedExponential.

(** An exponential distribution with a [rate] parameter shifted by some
    constant [shift].  The attributes hold whatever numbers are passed. *)
Record t (num : Type) : Type := new { rate : num; shift : num }.
Arguments new {num} rate shift.
Arguments rate {num} _.
Arguments shift {num} _.

(** The body is two assignments: it has no [raise], and changes neither
    argument. *)
Definition __init__ {num : Type} (rate shift : num) : result (t num) :=
  Returns {| rate := rate; shift := shift |}.

Definition sample {RNG : Type} (random : RNG → R * RNG) (self : t R)
    : SR RNG R :=
  x ← expovariate random (rate self); mret (shift self + x)%R.

End ShiftedExponential.

(** ** [simulate_queue] *)

(** A dictionary in insertion order: assigning to a key that is present
    replaces its value in place, a new key goes last. *)
Definition dict (K V : Type) : Type := list (K * V).

Fixpoint dict_set {K V} `{EqDecision K} (k : K) (v : V) (d : dict K V)
    : dict K V :=
  match d with
  | [] => [(k, v)]
  | (k', v') :: d' =>
      if decide (k = k') then (k', v) :: d' else (k', v') :: dict_set k v d'
  end.

Definition dict_get {K V} `{EqDecision K} (k : K) (d : dict K V) : option V :=
  snd <$> List.find (λ kv, bool_decide (kv.1 = k)) d.

(** A dictionary comprehension over [items]. *)
Definition dict_comprehension {K V K' V'} `{EqDecision K'}
    (f : K * V → K' * V') (items : dict K V) : dict K' V' :=
  fold_left (λ d kv, dict_set (f kv).1 (f kv).2 d) items [].

(** The distributions handed to ciw.  [Exponential] is ciw's own class:
    here it is the tag with its argument, and whatever ciw checks when it
    builds or runs the network belongs to [ciw_simulate] below. *)
Inductive distribution : Type :=
  | Exponential (rate : float64)
  | Shifted (d : ShiftedExponential.t float64).

(** The keyword arguments of [ciw.create_network]. *)
Record Network : Type := mkNetwork {
  arrival_distributions : dict string (list distribution);
  service_distributions : dict string (list distribution);
  number_of_servers : list Z;
}.

(** What the module reads of a finished simulation. *)
Record Server : Type := mkServer { busy_time : Q; total_time : Q }.
Arguments mkServer _%_Q _%_Q.

Record Node : Type := mkNode { servers : list Server }.

(** The fields of [ciw.DataRecord] that the module reads, with the
    customer's identity and class. *)
Record DataRecord : Type := mkRecord {
  id_number : nat;
  customer_class : nat;
  arrival_date : Q;
  exit_date : Q;
}.
Arguments mkRecord _%_nat _%_nat _%_Q _%_Q.

Record Simulation : Type := mkSimulation {
  transitive_nodes : list Node;
  all_records : list DataRecord;
}.

Definition get_all_records (queue : Simulation) : list DataRecord :=
  all_records queue.

(** The f-string [f"Class {label}"]. *)
Definition class_name (label : nat) : string := "Class " +:+ pretty label.

(** The loop [for label, prop in zip(range(n_clusters), props)], over the
    pairs still to come. *)
Fixpoint queue_params_loop (data : loc) (sigma : Q) (pairs : list (nat * Q))
    (all_queue_params : dict nat queue_params)
    : M (dict nat queue_params) :=
  match pairs with
  | [] => mret all_queue_params
  | (label, prop) :: pairs' =>
      labels ← getitem_int data cluster;
      cluster ← getitem_mask data
                  (map (λ c, bool_decide (c = Z.of_nat label)) labels);
      params ← get_queue_params cluster prop sigma;
      queue_params_loop data sigma pairs'
        (dict_set label params all_queue_params)
  end.

(** The arguments of the call [ciw.create_network(...)].  The service
    distribution of a class is the [ShiftedExponential] built from the two
    service parameters: [__init__] returns it for every pair of
    arguments. *)
Definition network_of (all_queue_params : dict nat queue_params)
    (num_servers : Z) : Network :=
  {| arrival_distributions :=
       dict_comprehension
         (λ lp, (class_name lp.1, [Exponential (arrival lp.2)]))
         all_queue_params;
     service_distributions :=
       dict_comprehension
         (λ lp, (class_name lp.1,
                 [Shifted (ShiftedExponential.new (service lp.2).1
                                                  (service lp.2).2)]))
         all_queue_params;
     number_of_servers := [num_servers] |}.

Section simulate_queue.

(** The state of the global generators ([random] and [numpy.random]);
    [ciw.seed(seed)] sets it from the seed alone.  [ciw_simulate N max_time]
    stands for [create_network], [Simulation(N)] and
    [simulate_until_max_time(max_time)]: it reads and advances the
    generators and may raise. *)
Context {RNG : Type}.
Variable ciw_seed : Z → RNG.
Variable ciw_simulate : Network → Q → SR RNG Simulation.

Record world : Type := mkWorld { frames : store; rng : RNG }.

Definition on_frames {A} (m : M A) : SR world A := λ w,
  let (r, σ) := m (frames w) in (r, {| frames := σ; rng := rng w |}).

Definition on_rng {A} (m : SR RNG A) : SR world A := λ w,
  let (r, g) := m (rng w) in (r, {| frames := frames w; rng := g |}).

Definition seed_generators (seed : Z) : SR RNG unit := λ _,
  (Returns tt, ciw_seed seed).

(** Build and simulate a queue under the provided parameters.  (The body
    of the [dask.delayed] task.) *)
Definition simulate_queue (data : loc) (props : list Q) (num_servers : Z)
    (seed : Z) (max_time : Q) (sigma : Q) : SR world Simulation :=
  _ ← on_rng (seed_generators seed);
  labels ← on_frames (getitem_int data cluster);
  let n_clusters := nunique labels in
  all_queue_params ←
    on_frames (queue_params_loop data sigma (zip (seq 0 n_clusters) props) []);
  let N := network_of all_queue_params num_servers in
  on_rng (ciw_simulate N max_time).

End simulate_queue.

(** ** The result tables *)

Inductive scalar : Type :=
  | SInt (z : Z)
  | SFloat (x : float64)
  | SStr (s : string).

(** A result frame: the length of its index and its columns in order. *)
Record Table : Type := mkTable {
  index_len : nat;
  columns : dict string (list scalar);
}.

(** [pd.DataFrame()]. *)
Definition pd_DataFrame : Table := {| index_len := 0; columns := [] |}.

(** [df[key] = values] for a list: a frame with an empty index takes the
    index of the values; otherwise the lengths have to agree. *)
Definition setitem_list (key : string) (values : list scalar) (df : Table)
    : result Table :=
  let n := if (index_len df =? 0)%nat then length values else index_len df in
  if (length values =? n)%nat
  then Returns {| index_len := n; columns := dict_set key values (columns df) |}
  else Raises ValueError.

(** [df[key] = series] for a series under the labels 0, 1, 2, ...: a frame
    with an empty index takes the index of the series; otherwise the
    series is aligned to the frame's index, NaN where it has no entry. *)
Definition setitem_series (key : string) (values : Series) (df : Table)
    : Table :=
  let n := if (index_len df =? 0)%nat then length values else index_len df in
  {| index_len := n;
     columns :=
       dict_set key (map SFloat (take n (values ++ replicate n NaN)))
                (columns df) |}.

(** [df[key] = value] for a scalar: the value on every row. *)
Definition setitem_scalar (key : string) (value : scalar) (df : Table)
    : Table :=
  {| index_len := index_len df;
     columns := dict_set key (replicate (index_len df) value) (columns df) |}.

(** The loop [for key, value in kwargs.items(): df[key] = value]. *)
Definition set_tags (kwargs : dict string scalar) (df : Table) : Table :=
  fold_left (λ df kv, setitem_scalar kv.1 kv.2 df) kwargs df.

Definition column (key : string) (df : Table) : option (list scalar) :=
  dict_get key (columns df).

(** [a / b] on Python numbers: a zero divisor raises. *)
Definition py_truediv (a b : Q) : result Q :=
  if Qeq_bool b 0 then Raises ZeroDivisionError else Returns (Qred (a / b)).

(** The loop [for server in node.servers: utilisations.append(...)]. *)
Fixpoint utilisations_loop (servers : list Server) (utilisations : list Q)
    : result (list Q) :=
  match servers with
  | [] => mret utilisations
  | server :: servers' =>
      u ← py_truediv (busy_time server) (total_time server);
      utilisations_loop servers' (utilisations ++ [u])
  end.

(** Get the utilisation for each server in the queue. *)
Definition get_utilisations (queue : Simulation) (kwargs : dict string scalar)
    : result Table :=
  let df := pd_DataFrame in
  node ← match transitive_nodes queue with
         | node :: _ => Returns node
         | [] => Raises IndexError
         end;
  utilisations ← utilisations_loop (servers node) [];
  df ← setitem_list "utilisation" (map (λ u, SFloat (Fin u)) utilisations) df;
  mret (set_tags kwargs df).

Definition Qltb (a b : Q) : bool := negb (Qle_bool b a).

(** Get the system times for every patient to pass through the queue
    within the centre 50% of the [max_time] period. *)
Definition get_system_times (queue : Simulation) (max_time : Q)
    (kwargs : dict string scalar) : Table :=
  let records := get_all_records queue in
  let results :=
    List.filter
      (λ r, Qltb (max_time * 0.25) (arrival_date r)
            && Qltb (arrival_date r) (max_time * 0.75))
      records in
  let df := pd_DataFrame in
  let df :=
    setitem_series "system_time"
      (map (λ r, np_sub (Fin (exit_date r)) (Fin (arrival_date r))) results)
      df in
  set_tags kwargs df.

(** Get the utilisation and system time results back from a queue. *)
Definition get_results (queue : Simulation) (max_time : Q)
    (kwargs : dict string scalar) : result (Table * Table) :=
  utilisations ← get_utilisations queue kwargs;
  let system_times := get_system_times queue max_time kwargs in
  mret (utilisations, system_times).

(** ** The parameter file *)

(** [s.split(sep)] for a separator of one character: the pieces between
    consecutive separators, one more than there are separators; a piece
    may be empty. *)
Fixpoint str_split (sep : Ascii.ascii) (s : string) : list string :=
  match s with
  | EmptyString => [EmptyString]
  | String c s' =>
      if Ascii.eqb c sep then EmptyString :: str_split sep s'
      else
        match str_split sep s' with
        | piece :: pieces => String c piece :: pieces
        | [] => [String c EmptyString]
        end
  end.

(** The slice [l[:-2]]. *)
Definition all_but_last_two {A} (l : list A) : list A :=
  take (length l - 2) l.

(** The item [l[-2]]; a list shorter than two raises. *)
Definition last_but_one {A} (l : list A) : result A :=
  if (2 <=? length l)%nat then
    match l !! (length l - 2)%nat with
    | Some x => Returns x
    | None => Raises IndexError
    end
  else Raises IndexError.

(** [list(map(f, l))] for an [f] that may raise: the first exception
    ends the traversal. *)
Fixpoint map_result {A B} (f : A → result B) (l : list A) : result (list B) :=
  match l with
  | [] => mret []
  | x :: l' => y ← f x; ys ← map_result f l'; mret (y :: ys)
  end.

Section load_params.

(** The builtins [float] and [int] on strings: each returns the number
    it reads or raises. *)
Variable py_float : string → result float64.
Variable py_int : string → result Z.

(** The module-level block that reads [params.txt], as a function of the
    content of the file: [PROPS] and [NUM_SERVERS]. *)
Definition load_params (content : string) : result (list float64 * Z) :=
  let parts := str_split " "%char content in
  PROPS ← map_result py_float (all_but_last_two parts);
  part ← last_but_one parts;
  NUM_SERVERS ← py_int part;
  mret (PROPS, NUM_SERVERS).

End load_params.

(** ** Vocabulary of the statements *)

(** A frame built from rows, under the labels 0, 1, 2, ... *)
Definition frame_of_rows (rows : list Row) : DataFrame :=
  zip (map Z.of_nat (seq 0 (length rows))) rows.

(** The admission timestamps and the sojourn lengths of a frame, in row
    order. *)
Definition admissions (df : DataFrame) : list Timestamp :=
  map (λ ir, admission_date ir.2) df.

Definition sojourns (df : DataFrame) : list Q :=
  map (λ ir, true_los ir.2) df.

Definition Qsum (l : list Q) : Q := fold_right Qplus 0 l.

Definition Qmean (l : list Q) : Q := Qsum l / (Z.of_nat (length l) # 1).

(** The least element of a list that is not empty. *)
Definition Qminimum (l : list Q) : Q :=
  match l with
  | [] => 0
  | x :: l' => fold_left Qmin l' x
  end.

Definition nanoseconds_per_day : positive := 86400000000000.

(** The gaps between consecutive admissions, in days: [n - 1] of them for
    [n] admissions. *)
Fixpoint gaps_in_days (ts : list Timestamp) : list Q :=
  match ts with
  | [] => []
  | t :: ts' =>
      match ts' with
      | [] => []
      | t' :: _ => ((t' - t) # nanoseconds_per_day) :: gaps_in_days ts'
      end
  end.

Definition is_finite (x : float64) : bool :=
  match x with Fin _ | NegZero => true | _ => false end.

(** [x] is the finite number [q]. *)
Definition fin_is (x : float64) (q : Q) : Prop := feq x (Fin q).

(** The arrival rate as the specification words it: [sigma] over the mean
    of the [n - 1] gaps between consecutive admissions. *)
Definition spec_arrival_rate (ts : list Timestamp) (sigma : Q) : float64 :=
  np_div (Fin sigma) (Fin (Qmean (gaps_in_days ts))).

Definition day : Z := 86400000000000.

(** Admissions on days 0, 2 and 4, with sojourns of 1, 3 and 5 days. *)
Definition three_admissions : DataFrame :=
  frame_of_rows [ mkRow 0 1 0; mkRow (2 * day) 3 0; mkRow (4 * day) 5 0 ].

(** A single admission. *)
Definition one_admission : DataFrame := frame_of_rows [ mkRow 0 3 0 ].

(** The value [get_queue_params] computes from the content of the frame,
    with the store left out. *)
Definition estimate (df : DataFrame) (prop sigma : Q) : queue_params :=
  let index := map fst (merge_sort label_le
                          (map (λ ir, (admission_date ir.2, ir.2)) df)) in
  let interarrival_times :=
    Series_div (map total_seconds (Series_diff index))
               (Fin (24 * 60 * 60)) (Some (Fin 0)) in
  let los := map (λ ir, Fin (true_los ir.2)) df in
  let minimum_length := py_max0 (Series_min los) in
  {| arrival := np_div (Fin sigma) (np_mean interarrival_times);
     service :=
       (np_div (Fin 1)
          (np_mul (Series_mean (Series_sub los minimum_length)) (Fin prop)),
        minimum_length) |}.

(** The rows of a frame that carry a cluster label. *)
Definition cluster_rows (label : nat) (df : DataFrame) : DataFrame :=
  List.filter (λ ir, bool_decide (cluster ir.2 = Z.of_nat label)) df.

(** The parameters of the loop of [simulate_queue], label by label. *)
Definition expected_params (df : DataFrame) (props : list Q) (sigma : Q)
    : dict nat queue_params :=
  map (λ lp, (lp.1, estimate (cluster_rows lp.1 df) lp.2 sigma))
      (zip (seq 0 (nunique (map (λ ir : Z * Row, cluster ir.2) df))) props).

(** A constructor call that is refused, or whose object has a positive
    rate and a shift that is not negative. *)
Definition rejects_or_clamps
    (r : result (ShiftedExponential.t float64)) : bool :=
  match r with
  | Raises _ => true
  | Returns d =>
      np_ltb (Fin 0) (ShiftedExponential.rate d)
      && negb (np_ltb (ShiftedExponential.shift d) (Fin 0))
  end.

(** The records that [get_system_times] keeps. *)
Definition in_window (max_time : Q) (r : DataRecord) : bool :=
  Qltb (max_time * 0.25) (arrival_date r)
  && Qltb (arrival_date r) (max_time * 0.75).


(** A generator whose every draw is 1/2. *)
Definition half_draws (g : unit) : R * unit := ((1 / 2)%R, g).

(** Completed customers who arrived at times 10, 100, 200 and 300. *)
Definition four_arrivals : Simulation :=
  mkSimulation []
    [ mkRecord 0 0 10 25; mkRecord 1 0 100 120;
      mkRecord 2 1 200 230; mkRecord 3 0 300 340 ].


(** Six admissions, a day apart, alternating between two clusters. *)
Definition two_clusters : DataFrame :=
  frame_of_rows
    [ mkRow 0 1 0; mkRow day 2 1; mkRow (2 * day) 3 0;
      mkRow (3 * day) 4 1; mkRow (4 * day) 5 0; mkRow (5 * day) 6 1 ].

(** A stand-in for ciw in the examples: the generators are a counter of
    draws, and a run draws once and completes no customer. *)
Definition counter_seed (seed : Z) : nat := Z.to_nat seed.

Definition idle_run (N : Network) (max_time : Q) : SR nat Simulation := λ g,
  (Returns (mkSimulation [ mkNode [] ] []), S g).

Definition world_of (df : DataFrame) (g : nat) : @world nat :=
  {| frames := {[ 0%nat := df ]}; rng := g |}.

(** A generator whose every draw is 0. *)
Definition zero_draws (g : unit) : R * unit := (0%R, g).

(** Whether a character occurs in a string. *)
Fixpoint occurs (c : Ascii.ascii) (s : string) : bool :=
  match s with
  | EmptyString => false
  | String c' s' => Ascii.eqb c' c || occurs c s'
  end.

(** A reader of floats and a reader of integers for the examples: they
    know the numerals of one parameter file and refuse anything else. *)
Definition read_float (s : string) : result float64 :=
  if String.eqb s "0.5" then Returns (Fin (1 # 2))
  else if String.eqb s "1.25" then Returns (Fin (5 # 4))
  else Raises ValueError.

Definition read_int (s : string) : result Z :=
  if String.eqb s "40" then Returns 40%Z else Raises ValueError.

(** The rows of [three_admissions], latest first. *)
Definition three_admissions_reversed : DataFrame :=
  frame_of_rows [ mkRow (4 * day) 5 0; mkRow (2 * day) 3 0; mkRow 0 1 0 ].

(** Three admissions at the same instant. *)
Definition same_instant : DataFrame :=
  frame_of_rows [ mkRow day 1 0; mkRow day 3 0; mkRow day 5 0 ].

(** Admissions a day apart, each with a sojourn of two days. *)
Definition constant_sojourns : DataFrame :=
  frame_of_rows [ mkRow 0 2 0; mkRow day 2 0; mkRow (2 * day) 2 0 ].

(** Every column has as many entries as the index. *)
Definition rectangular (df : Table) : Prop :=
  Forall (λ kc, length kc.2 = index_len df) (columns df).

(** A finished run on two servers with the four completed customers. *)
Definition finished_run : Simulation :=
  mkSimulation [ mkNode [ mkServer 100 400; mkServer 300 400 ] ]
               (all_records four_arrivals).

Definition finished_run_utilisations : Table :=
  {| index_len := 2;
     columns := [ ("utilisation", [ SFloat (Fin (1 # 4)); SFloat (Fin (3 # 4)) ]);
                  ("servers", [ SInt 2; SInt 2 ]) ] |}.

Definition finished_run_system_times : Table :=
  {| index_len := 1;
     columns := [ ("system_time", [ SFloat (Fin 30) ]);
                  ("servers", [ SInt 2 ]) ] |}.

(** A run that was stopped at time zero: the second server was never
    observed. *)
Definition unobserved_server : Simulation :=
  mkSimulation [ mkNode [ mkServer 1 4; mkServer 0 0 ] ] [].

(** A dataset whose two clusters are labelled 1 and 2. *)
Definition clusters_from_one : DataFrame :=
  frame_of_rows
    [ mkRow 0 1 1; mkRow day 2 2; mkRow (2 * day) 3 1; mkRow (3 * day) 4 2 ].

(** ** Arithmetic of finite values *)

Lemma Qeq_bool_false (a b : Q) : ¬ a == b → Qeq_bool a b = false.
Proof.
  intros H. destruct (Qeq_bool a b) eqn:E; [|done].
  apply Qeq_bool_iff in E. contradiction.
Qed.

Lemma Qltb_lt (a b : Q) : Qltb a b = true ↔ a < b.
Proof.
  unfold Qltb. rewrite negb_true_iff. split.
  - intros H. apply Qnot_le_lt. intros Hle.
    apply Qle_bool_iff in Hle. congruence.
  - intros H. destruct (Qle_bool b a) eqn:E; [|done].
    apply Qle_bool_iff in E. exfalso. apply (Qlt_not_le _ _ H E).
Qed.

#[global] Instance feq_equiv : Equivalence feq.
Proof.
  split.
  - intros []; simpl; done.
  - intros [] []; simpl; done.
  - intros [] [] []; simpl; first [done | intros H1 H2; by rewrite H1].
Qed.

Lemma sgn_Fin (q : Q) : sgn (Fin q) = Qltb q 0.
Proof.
  simpl. destruct (Qlt_le_dec q 0) as [H|H].
  - symmetry. by apply Qltb_lt.
  - destruct (Qltb q 0) eqn:E; [|done].
    apply Qltb_lt in E. exfalso. apply (Qlt_not_le _ _ E H).
Qed.

Lemma Qltb_proper (a a' b b' : Q) : a == a' → b == b' → Qltb a b = Qltb a' b'.
Proof.
  intros Ha Hb. destruct (Qltb a b) eqn:E, (Qltb a' b') eqn:E'; try done.
  - apply Qltb_lt in E. rewrite Ha, Hb in E. apply Qltb_lt in E. congruence.
  - apply Qltb_lt in E'. rewrite <- Ha, <- Hb in E'. apply Qltb_lt in E'.
    congruence.
Qed.

Lemma Qeq_bool_proper (a a' b b' : Q) :
  a == a' → b == b' → Qeq_bool a b = Qeq_bool a' b'.
Proof.
  intros Ha Hb. destruct (Qeq_bool a b) eqn:E.
  - apply Qeq_bool_iff in E. symmetry. apply Qeq_bool_iff.
    by rewrite <- Ha, <- Hb.
  - symmetry. apply Qeq_bool_false. intros H.
    apply Qeq_bool_neq in E. apply E. by rewrite Ha, Hb.
Qed.

(** Numbers that are equal have the same classification. *)
Lemma feq_class (x y : float64) :
  feq x y →
  sgn x = sgn y ∧ is_zero x = is_zero y ∧ is_inf x = is_inf y
  ∧ is_nan x = is_nan y ∧ qval x == qval y.
Proof.
  destruct x as [a| | | |], y as [b| | | |]; simpl; try done.
  intros H. split_and!; try done.
  - pose proof (sgn_Fin a) as Ha. pose proof (sgn_Fin b) as Hb.
    simpl in Ha, Hb. rewrite Ha, Hb. by apply Qltb_proper.
  - by apply Qeq_bool_proper.
Qed.

Lemma np_div_feq (x x' y y' : float64) :
  feq x x' → feq y y' → np_div x y = np_div x' y'.
Proof.
  intros Hx Hy.
  destruct (feq_class _ _ Hx) as (Hs & Hz & Hi & Hn & Hq).
  destruct (feq_class _ _ Hy) as (Hs' & Hz' & Hi' & Hn' & Hq').
  unfold np_div. rewrite Hs, Hz, Hi, Hn, Hs', Hz', Hi', Hn'.
  repeat case_match; try done.
  f_equal. apply Qred_complete. by rewrite Hq, Hq'.
Qed.

Lemma np_mul_feq (x x' y y' : float64) :
  feq x x' → feq y y' → np_mul x y = np_mul x' y'.
Proof.
  intros Hx Hy.
  destruct (feq_class _ _ Hx) as (Hs & Hz & Hi & Hn & Hq).
  destruct (feq_class _ _ Hy) as (Hs' & Hz' & Hi' & Hn' & Hq').
  unfold np_mul. rewrite Hs, Hz, Hi, Hn, Hs', Hz', Hi', Hn'.
  repeat case_match; try done.
  f_equal. apply Qred_complete. by rewrite Hq, Hq'.
Qed.

Lemma fin_is_inv (x : float64) (q : Q) :
  fin_is x q → ∃ q', x = Fin q' ∧ q' == q.
Proof. destruct x; simpl; try done. intros H. by eexists. Qed.

Lemma fin_is_Fin (q q' : Q) : q == q' → fin_is (Fin q) q'.
Proof. done. Qed.

Lemma sgn_zero (q : Q) : q == 0 → sgn (Fin q) = false.
Proof.
  intros H. rewrite sgn_Fin. destruct (Qltb q 0) eqn:E; [|done].
  apply Qltb_lt in E. rewrite H in E. by apply Qlt_irrefl in E.
Qed.

Lemma sgn_pos (q : Q) : 0 < q → sgn (Fin q) = false.
Proof.
  intros H. rewrite sgn_Fin. destruct (Qltb q 0) eqn:E; [|done].
  apply Qltb_lt in E. exfalso. apply (Qlt_irrefl 0). by etrans.
Qed.

Lemma np_add_fin (x y : float64) (a b : Q) :
  fin_is x a → fin_is y b → fin_is (np_add x y) (a + b).
Proof.
  intros (a' & -> & Ha)%fin_is_inv (b' & -> & Hb)%fin_is_inv.
  unfold np_add. cbn [is_nan is_inf orb is_zero qval].
  destruct (Qeq_bool a' 0) eqn:Ea, (Qeq_bool b' 0) eqn:Eb; cbn [andb];
    try (apply fin_is_Fin; rewrite Qred_correct; by rewrite Ha, Hb).
  apply Qeq_bool_iff in Ea. apply Qeq_bool_iff in Eb.
  rewrite (sgn_zero a' Ea). cbn. apply fin_is_Fin.
  rewrite <- Ha, <- Hb, Ea, Eb. ring.
Qed.

Lemma np_sub_Fin (a b : Q) : np_sub (Fin a) (Fin b) = Fin (Qred (a - b)).
Proof.
  unfold np_sub, np_neg. destruct (Qeq_bool b 0) eqn:Eb.
  - apply Qeq_bool_iff in Eb. unfold np_add. cbn -[sgn].
    destruct (Qeq_bool a 0) eqn:Ea; cbn -[sgn].
    + apply Qeq_bool_iff in Ea. rewrite (sgn_zero a Ea). cbn.
      f_equal. symmetry. change 0 with (Qred 0). apply Qred_complete.
      rewrite Ea, Eb. ring.
    + f_equal. apply Qred_complete. rewrite Eb. ring.
  - unfold np_add. cbn.
    assert (Qeq_bool (Qred (- b)) 0 = false) as ->.
    { apply Qeq_bool_false. rewrite Qred_correct. intros H.
      apply Qeq_bool_neq in Eb. apply Eb.
      rewrite <- (Qopp_involutive b), H. ring. }
    rewrite andb_false_r. f_equal. apply Qred_complete.
    rewrite Qred_correct. ring.
Qed.

Lemma np_div_fin (x y : float64) (a b : Q) :
  fin_is x a → fin_is y b → 0 < b → fin_is (np_div x y) (a / b).
Proof.
  intros (a' & -> & Ha)%fin_is_inv (b' & -> & Hb)%fin_is_inv Hpos.
  assert (0 < b') as Hpos' by by rewrite Hb.
  unfold np_div. cbn [is_nan is_inf orb is_zero qval].
  rewrite (Qeq_bool_false b' 0).
  2:{ intros H. rewrite H in Hpos'. by apply Qlt_irrefl in Hpos'. }
  rewrite (sgn_pos b' Hpos').
  destruct (Qeq_bool a' 0) eqn:Ea.
  - apply Qeq_bool_iff in Ea. rewrite (sgn_zero a' Ea). cbn.
    apply fin_is_Fin. rewrite <- Ha, Ea. unfold Qdiv. ring.
  - apply fin_is_Fin. rewrite Qred_correct. by rewrite Ha, Hb.
Qed.

Lemma dropna_fin (s : Series) (l : list Q) :
  Forall2 fin_is s l → dropna s = s.
Proof.
  induction 1 as [|x q s l Hx _ IH]; [done|].
  apply fin_is_inv in Hx as (q' & -> & _). cbn. unfold dropna in IH.
  by rewrite IH.
Qed.

Lemma fold_np_add_fin (s : Series) (l : list Q) (x : float64) (a : Q) :
  Forall2 fin_is s l → fin_is x a →
  fin_is (fold_left np_add s x) (a + Qsum l).
Proof.
  intros H. revert x a.
  induction H as [|y q s l Hy _ IH]; intros x a Hx; cbn.
  - unfold fin_is in *. etrans; [exact Hx|]. cbn. ring.
  - specialize (IH (np_add x y) (a + q) (np_add_fin _ _ _ _ Hx Hy)).
    unfold fin_is in *. etrans; [exact IH|]. unfold Qsum. cbn. ring.
Qed.

(** The mean of a series of finite numbers is the mean of the numbers. *)
Lemma Series_mean_fin (s : Series) (l : list Q) :
  Forall2 fin_is s l → l ≠ [] → fin_is (Series_mean s) (Qmean l).
Proof.
  intros H Hne. unfold Series_mean. rewrite (dropna_fin s l H).
  destruct H as [|x q s l Hx H]; [done|].
  set (v := x :: s). set (w := q :: l).
  assert (Forall2 fin_is v w) as Hvw by by constructor.
  unfold Qmean. rewrite <- (Forall2_length _ _ _ Hvw).
  apply np_div_fin.
  - unfold Series_sum. rewrite (dropna_fin v w Hvw).
    pose proof (fold_np_add_fin v w (Fin 0) 0 Hvw (fin_is_Fin 0 0 (Qeq_refl 0)))
      as Hsum.
    unfold fin_is in *. etrans; [exact Hsum|]. cbn. ring.
  - done.
  - unfold v. cbn [length]. unfold Qlt. cbn. lia.
Qed.

(** ** The index of a sorted frame, and the inter-arrival series *)

#[global] Instance label_le_total : Total label_le.
Proof. intros x y. unfold label_le. lia. Qed.

Lemma sort_index_labels (df : DataFrame) :
  Sorted Z.le (map fst df) → map fst (merge_sort label_le df) = map fst df.
Proof.
  intros Hs. apply (Sorted_unique Z.le); [| done |].
  - apply (Sorted_fmap fst label_le Z.le); [done|].
    apply (Sorted_merge_sort label_le).
  - apply fmap_Permutation, merge_sort_Permutation.
Qed.

Lemma set_index_labels (df : DataFrame) :
  map fst (map (λ ir : Z * Row, (admission_date ir.2, ir.2)) df)
  = admissions df.
Proof. unfold admissions. rewrite map_map. done. Qed.

Lemma gap_in_days (t t' : Timestamp) :
  fin_is (np_div (total_seconds (Some (t' - t)%Z)) (Fin (24 * 60 * 60)))
         ((t' - t) # nanoseconds_per_day).
Proof.
  unfold total_seconds.
  pose proof (np_div_fin (Fin (Qred ((t' - t) # 1000000000)))
                (Fin (24 * 60 * 60)) ((t' - t) # 1000000000) (24 * 60 * 60)
                (fin_is_Fin _ _ (Qred_correct _))
                (fin_is_Fin _ _ (Qeq_refl _)) eq_refl) as H.
  unfold fin_is in *. etrans; [exact H|].
  cbn [feq]. set (d := 24 * 60 * 60). vm_compute in d. subst d.
  unfold Qeq, Qdiv, Qinv, Qmult, nanoseconds_per_day. cbn. lia.
Qed.

Lemma interarrival_from (t : Timestamp) (ts : list Timestamp) :
  Forall2 fin_is
    (Series_div (map total_seconds (diff_from t ts))
                (Fin (24 * 60 * 60)) (Some (Fin 0)))
    (gaps_in_days (t :: ts)).
Proof.
  revert t. induction ts as [|t' ts IH]; intros t; [constructor|].
  change (gaps_in_days (t :: t' :: ts))
    with (((t' - t) # nanoseconds_per_day) :: gaps_in_days (t' :: ts)).
  cbn [diff_from map Series_div Series_fillna].
  constructor; [|apply IH].
  change (is_nan (total_seconds (Some (t' - t)%Z))) with false.
  cbv iota. apply gap_in_days.
Qed.

(** With [fill_value=0] the series has one entry per admission: a zero in
    first place, then the gaps. *)
Lemma interarrival_times_fin (t : Timestamp) (ts : list Timestamp) :
  Forall2 fin_is
    (Series_div (map total_seconds (Series_diff (t :: ts)))
                (Fin (24 * 60 * 60)) (Some (Fin 0)))
    (0 :: gaps_in_days (t :: ts)).
Proof.
  cbn [Series_diff map Series_div Series_fillna total_seconds is_nan].
  constructor; [|apply interarrival_from]. done.
Qed.

Lemma gaps_length (t : Timestamp) (ts : list Timestamp) :
  length (gaps_in_days (t :: ts)) = length ts.
Proof.
  revert t. induction ts as [|t' ts IH]; intros t; [done|].
  change (gaps_in_days (t :: t' :: ts))
    with (((t' - t) # nanoseconds_per_day) :: gaps_in_days (t' :: ts)).
  cbn [length]. by rewrite IH.
Qed.

(** ** Running [get_queue_params] on a store *)

Lemma alloc_fresh (σ : store) (df : DataFrame) :
  ∃ l, alloc df σ = (Returns l, <[l := df]> σ) ∧ σ !! l = None.
Proof.
  exists (fresh (dom σ)). split; [done|].
  apply not_elem_of_dom, is_fresh.
Qed.

Lemma insert_fresh_lookup (σ : store) (l l' : loc) (df df' : DataFrame) :
  σ !! l = None → σ !! l' = Some df' → <[l := df]> σ !! l' = Some df'.
Proof. intros Hl Hl'. rewrite lookup_insert_ne; [done|]. congruence. Qed.

Lemma bind_returns {S A B} (m : SR S A) (f : A → SR S B) (σ σ' : S) (a : A) :
  m σ = (Returns a, σ') → (m ≫= f) σ = f a σ'.
Proof. intros H. unfold mbind, SR_bind. by rewrite H. Qed.

Lemma deref_run (σ : store) (l : loc) (df : DataFrame) :
  σ !! l = Some df → deref l σ = (Returns df, σ).
Proof. intros H. unfold deref. by rewrite H. Qed.

Lemma set_index_run (σ : store) (self : loc) (col : Row → Z) (df : DataFrame) :
  σ !! self = Some df →
  ∃ l, set_index self col σ
       = (Returns l, <[l := map (λ ir : Z * Row, (col ir.2, ir.2)) df]> σ)
       ∧ σ !! l = None.
Proof.
  intros H. unfold set_index. rewrite (bind_returns _ _ _ _ _ (deref_run _ _ _ H)).
  apply alloc_fresh.
Qed.

Lemma sort_index_run (σ : store) (self : loc) (df : DataFrame) :
  σ !! self = Some df →
  ∃ l, sort_index self σ = (Returns l, <[l := merge_sort label_le df]> σ)
       ∧ σ !! l = None.
Proof.
  intros H. unfold sort_index.
  rewrite (bind_returns _ _ _ _ _ (deref_run _ _ _ H)). apply alloc_fresh.
Qed.

Lemma index_to_series_run (σ : store) (self : loc) (df : DataFrame) :
  σ !! self = Some df → index_to_series self σ = (Returns (map fst df), σ).
Proof.
  intros H. unfold index_to_series.
  by rewrite (bind_returns _ _ _ _ _ (deref_run _ _ _ H)).
Qed.

Lemma getitem_run (σ : store) (self : loc) (col : Row → Q) (df : DataFrame) :
  σ !! self = Some df →
  getitem self col σ = (Returns (map (λ ir : Z * Row, Fin (col ir.2)) df), σ).
Proof.
  intros H. unfold getitem.
  by rewrite (bind_returns _ _ _ _ _ (deref_run _ _ _ H)).
Qed.

Lemma getitem_int_run (σ : store) (self : loc) (col : Row → Z) (df : DataFrame) :
  σ !! self = Some df →
  getitem_int self col σ = (Returns (map (λ ir : Z * Row, col ir.2) df), σ).
Proof.
  intros H. unfold getitem_int.
  by rewrite (bind_returns _ _ _ _ _ (deref_run _ _ _ H)).
Qed.

Lemma getitem_mask_run (σ : store) (self : loc) (mask : list bool)
    (df : DataFrame) :
  σ !! self = Some df →
  ∃ l, getitem_mask self mask σ = (Returns l, <[l := filter_mask df mask]> σ)
       ∧ σ !! l = None.
Proof.
  intros H. unfold getitem_mask.
  rewrite (bind_returns _ _ _ _ _ (deref_run _ _ _ H)). apply alloc_fresh.
Qed.

(** The call returns the estimate of the frame's content; every object of
    the store is as it was, and the store has grown by the two temporary
    frames only. *)
Lemma get_queue_params_run (σ : store) (data : loc) (df : DataFrame)
    (prop sigma : Q) :
  σ !! data = Some df →
  ∃ σ', get_queue_params data prop sigma σ
        = (Returns (estimate df prop sigma), σ')
        ∧ σ ⊆ σ'.
Proof.
  intros Hdata. unfold get_queue_params.
  destruct (set_index_run σ data admission_date df Hdata) as (l1 & E1 & Hl1).
  rewrite (bind_returns _ _ _ _ _ E1).
  set (σ1 := <[l1 := _]> σ) in *.
  destruct (sort_index_run σ1 l1 _ (lookup_insert_eq _ _ _)) as (l2 & E2 & Hl2).
  rewrite (bind_returns _ _ _ _ _ E2).
  set (σ2 := <[l2 := _]> σ1) in *.
  rewrite (bind_returns _ _ _ _ _
             (index_to_series_run σ2 l2 _ (lookup_insert_eq _ _ _))).
  assert (σ2 !! data = Some df) as Hdata2.
  { apply (insert_fresh_lookup _ l2 data _ df Hl2).
    by apply (insert_fresh_lookup _ l1 data _ df Hl1). }
  rewrite !(bind_returns _ _ _ _ _ (getitem_run σ2 data true_los df Hdata2)).
  exists σ2. split; [reflexivity|].
  etrans; [apply (insert_subseteq σ l1); exact Hl1|].
  by apply insert_subseteq.
Qed.

(** ** The service parameters *)

Lemma np_ltb_Fin (a b : Q) : np_ltb (Fin a) (Fin b) = Qltb a b.
Proof. done. Qed.

Lemma Qltb_false_le (a b : Q) : Qltb a b = false → b <= a.
Proof.
  intros H. apply Qnot_lt_le. intros Hlt. apply Qltb_lt in Hlt. congruence.
Qed.

Lemma min_step (m y : Q) : (if Qltb y m then y else m) = Qmin m y.
Proof.
  unfold Qmin, GenericMinMax.gmin. destruct (Qltb y m) eqn:E.
  - apply Qltb_lt in E. destruct (Qcompare_spec m y) as [H|H|]; try done.
    + rewrite H in E. by apply Qlt_irrefl in E.
    + exfalso. apply (Qlt_irrefl m). by etrans.
  - apply Qltb_false_le in E. destruct (Qcompare_spec m y) as [| |H]; try done.
    exfalso. apply (Qlt_not_le _ _ H E).
Qed.

Lemma py_max0_Fin (m : Q) : py_max0 (Fin m) = Fin (Qmax 0 m).
Proof.
  unfold py_max0, Qmax, GenericMinMax.gmax. rewrite np_ltb_Fin. destruct (Qltb 0 m) eqn:E.
  - apply Qltb_lt in E. destruct (Qcompare_spec 0 m) as [H| |H]; try done.
    + rewrite <- H in E. by apply Qlt_irrefl in E.
    + exfalso. apply (Qlt_irrefl 0). by etrans.
  - apply Qltb_false_le in E. destruct (Qcompare_spec 0 m) as [| H|]; try done.
    exfalso. apply (Qlt_not_le _ _ H E).
Qed.

Lemma dropna_map_Fin (l : list Q) : dropna (map Fin l) = map Fin l.
Proof. induction l as [|x l IH]; [done|]. cbn. unfold dropna in IH. by rewrite IH. Qed.

Lemma fold_min_Fin (l : list Q) (x : Q) :
  fold_left (λ m y, if np_ltb y m then y else m) (map Fin l) (Fin x)
  = Fin (fold_left Qmin l x).
Proof.
  revert x. induction l as [|y l IH]; intros x; [done|].
  cbn [map fold_left]. rewrite np_ltb_Fin.
  replace (if Qltb y x then Fin y else Fin x)
    with (Fin (if Qltb y x then y else x)) by by destruct (Qltb y x).
  rewrite min_step. apply IH.
Qed.

(** The minimum of a series of numbers is their least element. *)
Lemma Series_min_Fin (l : list Q) :
  l ≠ [] → Series_min (map Fin l) = Fin (Qminimum l).
Proof.
  intros H. unfold Series_min. rewrite dropna_map_Fin.
  destruct l as [|x l]; [done|]. apply fold_min_Fin.
Qed.

Lemma Series_sub_fin (l : list Q) (m : Q) :
  Forall2 fin_is (Series_sub (map Fin l) (Fin m)) (map (λ x, x - m) l).
Proof.
  induction l as [|x l IH]; [constructor|].
  cbn [map Series_sub]. constructor; [|apply IH].
  rewrite np_sub_Fin. apply fin_is_Fin, Qred_correct.
Qed.

Lemma los_series (df : DataFrame) :
  map (λ ir : Z * Row, Fin (true_los ir.2)) df = map Fin (sojourns df).
Proof. unfold sojourns. by rewrite map_map. Qed.

Lemma estimate_service (df : DataFrame) (prop sigma : Q) :
  df ≠ [] →
  service (estimate df prop sigma)
  = (np_div (Fin 1)
       (np_mul
          (Fin (Qmean (map (λ x, x - Qmax 0 (Qminimum (sojourns df)))
                           (sojourns df))))
          (Fin prop)),
     Fin (Qmax 0 (Qminimum (sojourns df)))).
Proof.
  intros Hne. unfold estimate. cbn [service].
  assert (sojourns df ≠ []) as Hl by (by destruct df).
  rewrite los_series, (Series_min_Fin _ Hl), py_max0_Fin.
  f_equal. f_equal. apply np_mul_feq; [|done].
  apply Series_mean_fin; [apply Series_sub_fin|].
  by destruct (sojourns df).
Qed.

(** ** The arrival rate *)

Lemma estimate_index (df : DataFrame) :
  Sorted Z.le (admissions df) →
  map fst (merge_sort label_le
             (map (λ ir : Z * Row, (admission_date ir.2, ir.2)) df))
  = admissions df.
Proof.
  intros H. rewrite sort_index_labels; rewrite set_index_labels; done.
Qed.

Lemma admissions_length (df : DataFrame) : length (admissions df) = length df.
Proof. apply length_map. Qed.

Lemma estimate_arrival (df : DataFrame) (prop sigma : Q) :
  df ≠ [] → Sorted Z.le (admissions df) →
  arrival (estimate df prop sigma)
  = np_div (Fin sigma)
      (Fin (Qsum (gaps_in_days (admissions df)) / (Z.of_nat (length df) # 1))).
Proof.
  intros Hne Hs. unfold estimate. cbn [arrival].
  rewrite (estimate_index df Hs), <- admissions_length.
  destruct (admissions df) as [|t ts] eqn:E.
  { destruct df; [done|discriminate]. }
  apply np_div_feq; [done|].
  pose proof (Series_mean_fin _ _ (interarrival_times_fin t ts)) as H.
  unfold fin_is in H. unfold np_mean. etrans; [apply H; done|].
  cbn [feq]. unfold Qmean. cbn [length Qsum foldr].
  rewrite gaps_length. unfold Qsum.
  by rewrite Qplus_0_l.
Qed.

(** ** Properties of [get_queue_params] *)

(** C1, as amended.  For every class dataset of at least one record that
    is sorted chronologically by admission timestamp, [get_queue_params]
    returns an arrival rate equal to [sigma] divided by the sum of the
    [n - 1] inter-arrival gaps in days over [n], the number of records:
    the fill value 0 puts a zero in first place of the inter-arrival
    series and the mean is taken over all [n] entries. *)
Theorem get_queue_params_arrival_rate (σ : store) (data : loc)
    (df : DataFrame) (prop sigma : Q) :
  σ !! data = Some df →
  df ≠ [] →
  Sorted Z.le (admissions df) →
  ∃ p σ', get_queue_params data prop sigma σ = (Returns p, σ')
    ∧ arrival p
      = np_div (Fin sigma)
          (Fin (Qsum (gaps_in_days (admissions df))
                / (Z.of_nat (length df) # 1))).
Proof.
  intros Hdata Hne Hs.
  destruct (get_queue_params_run σ data df prop sigma Hdata) as (σ' & E & _).
  exists (estimate df prop sigma), σ'. split; [done|].
  by apply estimate_arrival.
Qed.

Lemma three_admissions_sorted : Sorted Z.le (admissions three_admissions).
Proof. repeat constructor; done. Qed.

Lemma get_queue_params_arrival_rate_witness :
  ∃ p σ', get_queue_params 0%nat 1 1 {[ 0%nat := three_admissions ]}
          = (Returns p, σ')
    ∧ arrival p
      = np_div (Fin 1)
          (Fin (Qsum (gaps_in_days (admissions three_admissions))
                / (Z.of_nat (length three_admissions) # 1))).
Proof.
  apply (get_queue_params_arrival_rate {[ 0%nat := three_admissions ]} 0%nat
           three_admissions 1 1).
  - reflexivity.
  - discriminate.
  - exact three_admissions_sorted.
Defined.

(** C1, the counterexample.  For admissions on days 0, 2 and 4 with
    [sigma = 1] the returned arrival rate is 3/4, where the mean over the
    two gaps gives 1/2. *)
Lemma arrival_rate_counterexample :
  (get_queue_params 0%nat 1 1 {[ 0%nat := three_admissions ]}).1
  = Returns {| arrival := Fin (3 # 4); service := (Fin (1 # 2), Fin 1) |}
  ∧ spec_arrival_rate (admissions three_admissions) 1 = Fin (1 # 2)
  ∧ Fin (3 # 4) ≠ Fin (1 # 2).
Proof. split_and!; [by vm_compute | by vm_compute | discriminate]. Qed.

Lemma estimate_arrival_none (prop sigma : Q) :
  arrival (estimate [] prop sigma) = NaN.
Proof. done. Qed.

Lemma estimate_arrival_one (ir : Z * Row) (prop sigma : Q) :
  arrival (estimate [ir] prop sigma) = np_div (Fin sigma) (Fin 0).
Proof. done. Qed.

Lemma np_div_zero (sigma : Q) :
  is_finite (np_div (Fin sigma) (Fin 0)) = false
  ∧ (0 < sigma → np_div (Fin sigma) (Fin 0) = PInf).
Proof.
  unfold np_div. cbn -[sgn]. rewrite (sgn_zero 0 (Qeq_refl 0)), xorb_false_r.
  change (Qeq_bool 0 0) with true. cbv iota.
  split.
  - destruct (Qeq_bool sigma 0); [done|]. by destruct (sgn (Fin sigma)).
  - intros H. rewrite (sgn_pos sigma H), Qeq_bool_false; [done|].
    intros E. rewrite E in H. by apply Qlt_irrefl in H.
Qed.

(** C2, as amended.  For every class dataset of at most one record
    [get_queue_params] raises nothing: it returns parameters whose arrival
    rate is not a finite number, NaN for a dataset without records and
    [+inf] for a single record when [sigma] is positive. *)
Theorem get_queue_params_few_records (σ : store) (data : loc)
    (df : DataFrame) (prop sigma : Q) :
  σ !! data = Some df →
  (length df ≤ 1)%nat →
  ∃ p σ', get_queue_params data prop sigma σ = (Returns p, σ')
    ∧ is_finite (arrival p) = false
    ∧ (length df = 0%nat → arrival p = NaN)
    ∧ (length df = 1%nat → 0 < sigma → arrival p = PInf).
Proof.
  intros Hdata Hlen.
  destruct (get_queue_params_run σ data df prop sigma Hdata) as (σ' & E & _).
  exists (estimate df prop sigma), σ'. split; [done|].
  destruct df as [|ir [|ir' df]]; [| |cbn in Hlen; lia].
  - rewrite estimate_arrival_none. split_and!; done.
  - rewrite estimate_arrival_one.
    destruct (np_div_zero sigma) as [Hfin Hpos]. split_and!; done.
Qed.

Lemma get_queue_params_few_records_witness :
  ∃ p σ', get_queue_params 0%nat 1 1 {[ 0%nat := one_admission ]}
          = (Returns p, σ')
    ∧ is_finite (arrival p) = false
    ∧ (length one_admission = 0%nat → arrival p = NaN)
    ∧ (length one_admission = 1%nat → 0 < 1 → arrival p = PInf).
Proof.
  apply (get_queue_params_few_records {[ 0%nat := one_admission ]} 0%nat
           one_admission 1 1).
  - reflexivity.
  - cbn. lia.
Defined.

(** C2, the counterexample.  On a dataset of one record the call returns,
    and both rates it returns are infinite. *)
Lemma few_records_counterexample :
  (get_queue_params 0%nat 1 1 {[ 0%nat := one_admission ]}).1
  = Returns {| arrival := PInf; service := (PInf, Fin 3) |}.
Proof. by vm_compute. Qed.

(** C4.  For every class dataset with observed sojourn lengths,
    [get_queue_params] returns a minimum shift equal to the maximum of 0
    and the least observed sojourn, and a service rate equal to 1 divided
    by the product of the mean of the sojourns less the shift and
    [prop]. *)
Theorem get_queue_params_service (σ : store) (data : loc) (df : DataFrame)
    (prop sigma : Q) :
  σ !! data = Some df →
  df ≠ [] →
  ∃ p σ', get_queue_params data prop sigma σ = (Returns p, σ')
    ∧ (service p).2 = Fin (Qmax 0 (Qminimum (sojourns df)))
    ∧ (service p).1
      = np_div (Fin 1)
          (np_mul
             (Fin (Qmean (map (λ x, x - Qmax 0 (Qminimum (sojourns df)))
                              (sojourns df))))
             (Fin prop)).
Proof.
  intros Hdata Hne.
  destruct (get_queue_params_run σ data df prop sigma Hdata) as (σ' & E & _).
  exists (estimate df prop sigma), σ'. split; [done|].
  by rewrite (estimate_service df prop sigma Hne).
Qed.

Lemma get_queue_params_service_witness :
  ∃ p σ', get_queue_params 0%nat 1 1 {[ 0%nat := three_admissions ]}
          = (Returns p, σ')
    ∧ (service p).2 = Fin (Qmax 0 (Qminimum (sojourns three_admissions)))
    ∧ (service p).1
      = np_div (Fin 1)
          (np_mul
             (Fin (Qmean
                     (map (λ x, x - Qmax 0 (Qminimum (sojourns three_admissions)))
                          (sojourns three_admissions))))
             (Fin 1)).
Proof.
  apply (get_queue_params_service {[ 0%nat := three_admissions ]} 0%nat
           three_admissions 1 1).
  - reflexivity.
  - discriminate.
Defined.

(** The instance of the specification: sojourns of 1, 3 and 5 days with
    [prop = 1] give a minimum shift of 1 and a service rate of 1/2. *)
Example get_queue_params_service_example :
  ∃ p, (get_queue_params 0%nat 1 1 {[ 0%nat := three_admissions ]}).1
       = Returns p
    ∧ service p = (Fin (1 # 2), Fin 1).
Proof. eexists. split; by vm_compute. Qed.

(** C9.  [get_queue_params] has no side effect: after the call the
    dataset is what it was, as is every object that existed before, and
    the parameters returned are a function of the dataset's content,
    [prop] and [sigma] alone, whatever the store and the identity of the
    frame. *)
Theorem get_queue_params_no_side_effect (σ : store) (data : loc)
    (df : DataFrame) (prop sigma : Q) :
  σ !! data = Some df →
  ∃ p σ', get_queue_params data prop sigma σ = (Returns p, σ')
    ∧ σ' !! data = Some df
    ∧ (∀ l df', σ !! l = Some df' → σ' !! l = Some df')
    ∧ (∀ (τ : store) (data' : loc),
         τ !! data' = Some df →
         (get_queue_params data' prop sigma τ).1 = Returns p).
Proof.
  intros Hdata.
  destruct (get_queue_params_run σ data df prop sigma Hdata) as (σ' & E & Hsub).
  exists (estimate df prop sigma), σ'. split_and!; [done| | |].
  - by eapply lookup_weaken.
  - intros l df' H. by eapply lookup_weaken.
  - intros τ data' H.
    destruct (get_queue_params_run τ data' df prop sigma H) as (τ' & -> & _).
    done.
Qed.

Lemma get_queue_params_no_side_effect_witness :
  ∃ p σ', get_queue_params 0%nat 1 1 {[ 0%nat := three_admissions ]}
          = (Returns p, σ')
    ∧ σ' !! 0%nat = Some three_admissions
    ∧ (∀ l df', ({[ 0%nat := three_admissions ]} : store) !! l = Some df'
                → σ' !! l = Some df')
    ∧ (∀ (τ : store) (data' : loc),
         τ !! data' = Some three_admissions →
         (get_queue_params data' 1 1 τ).1 = Returns p).
Proof.
  apply (get_queue_params_no_side_effect {[ 0%nat := three_admissions ]} 0%nat
           three_admissions 1 1).
  reflexivity.
Defined.

(** ** Dictionaries and result tables *)

Lemma dict_get_cons {K V} `{EqDecision K} (k k' : K) (v : V) (d : dict K V) :
  dict_get k ((k', v) :: d) = if decide (k' = k) then Some v else dict_get k d.
Proof.
  unfold dict_get. cbn. destruct (decide (k' = k)) as [->|Hne].
  - by rewrite bool_decide_eq_true_2.
  - by rewrite bool_decide_eq_false_2.
Qed.

Lemma dict_get_set_eq {K V} `{EqDecision K} (k : K) (v : V) (d : dict K V) :
  dict_get k (dict_set k v d) = Some v.
Proof.
  induction d as [|[k' v'] d IH]; cbn [dict_set].
  - rewrite dict_get_cons. by rewrite decide_True.
  - destruct (decide (k = k')) as [->|Hne]; rewrite dict_get_cons.
    + by rewrite decide_True.
    + by rewrite decide_False.
Qed.

Lemma dict_get_set_ne {K V} `{EqDecision K} (k k' : K) (v : V) (d : dict K V) :
  k ≠ k' → dict_get k (dict_set k' v d) = dict_get k d.
Proof.
  intros Hne. induction d as [|[k'' v''] d IH]; cbn [dict_set].
  - rewrite dict_get_cons. by rewrite decide_False.
  - destruct (decide (k' = k'')) as [->|Hne']; rewrite !dict_get_cons.
    + by rewrite !decide_False.
    + by rewrite IH.
Qed.

Lemma dict_get_None_cons {K V} `{EqDecision K} (k k' : K) (v : V)
    (d : dict K V) :
  dict_get k ((k', v) :: d) = None → k ≠ k' ∧ dict_get k d = None.
Proof.
  rewrite dict_get_cons. destruct (decide (k' = k)); [done|]. by split.
Qed.

(** Tags leave the index alone, and a column that no tag is named after. *)
Lemma set_tags_frame (key : string) (kwargs : dict string scalar) (df : Table) :
  dict_get key kwargs = None →
  index_len (set_tags kwargs df) = index_len df
  ∧ column key (set_tags kwargs df) = column key df.
Proof.
  revert df. induction kwargs as [|[k v] kwargs IH]; intros df Hk; [done|].
  apply dict_get_None_cons in Hk as [Hne Hk].
  change (set_tags ((k, v) :: kwargs) df)
    with (set_tags kwargs (setitem_scalar k v df)).
  destruct (IH (setitem_scalar k v df) Hk) as [Hlen Hcol].
  rewrite Hlen, Hcol. split; [done|].
  unfold column, setitem_scalar. cbn. by apply dict_get_set_ne.
Qed.

Lemma setitem_series_new (key : string) (values : Series) :
  setitem_series key values pd_DataFrame
  = {| index_len := length values;
       columns := [(key, map SFloat values)] |}.
Proof.
  unfold setitem_series, pd_DataFrame. cbn. do 3 f_equal.
  by rewrite take_app_length.
Qed.

Lemma in_window_spec (max_time : Q) (r : DataRecord) :
  in_window max_time r = true
  ↔ max_time * 0.25 < arrival_date r ∧ arrival_date r < max_time * 0.75.
Proof. unfold in_window. by rewrite andb_true_iff, !Qltb_lt. Qed.

(** ** Properties of the result tables *)

(** C3.  For every queue history and [max_time], the system-time table
    has one row for each completed-customer record whose arrival date
    lies strictly between a quarter and three quarters of [max_time], in
    the order of the records, and no other row; the system time of a row
    is the exit date of its record minus its arrival date.  (The tags of
    the caller are columns of their own: none of them is named
    [system_time].) *)
Theorem get_system_times_window (queue : Simulation) (max_time : Q)
    (kwargs : dict string scalar) :
  dict_get "system_time" kwargs = None →
  let kept := List.filter (in_window max_time) (get_all_records queue) in
  let df := get_system_times queue max_time kwargs in
  column "system_time" df
  = Some (map (λ r, SFloat (Fin (Qred (exit_date r - arrival_date r)))) kept)
  ∧ index_len df = length kept
  ∧ ∀ r, In r kept
         ↔ In r (get_all_records queue)
           ∧ max_time * 0.25 < arrival_date r
           ∧ arrival_date r < max_time * 0.75.
Proof.
  intros Hk kept df. unfold df, get_system_times.
  fold (in_window max_time). fold kept.
  rewrite setitem_series_new.
  match goal with |- context [set_tags kwargs ?t] =>
    destruct (set_tags_frame "system_time" kwargs t Hk) as [-> ->] end.
  split_and!.
  - unfold column. cbn [columns]. rewrite dict_get_cons, decide_True by done.
    f_equal. rewrite map_map. apply map_ext. intros r. by rewrite np_sub_Fin.
  - cbn. by rewrite !length_map.
  - intros r. unfold kept. rewrite List.filter_In, in_window_spec. done.
Qed.

Lemma get_system_times_window_witness :
  let kept := List.filter (in_window 400) (get_all_records four_arrivals) in
  let df := get_system_times four_arrivals 400 [("servers", SInt 3)] in
  column "system_time" df
  = Some (map (λ r, SFloat (Fin (Qred (exit_date r - arrival_date r)))) kept)
  ∧ index_len df = length kept
  ∧ ∀ r, In r kept
         ↔ In r (get_all_records four_arrivals)
           ∧ 400 * 0.25 < arrival_date r
           ∧ arrival_date r < 400 * 0.75.
Proof.
  apply (get_system_times_window four_arrivals 400 [("servers", SInt 3)]).
  reflexivity.
Defined.

(** The instance of the specification: with [max_time = 400] only the
    arrival at 200 is kept; those at 100 and 300 are on the boundary. *)
Example get_system_times_window_example :
  get_system_times four_arrivals 400 []
  = {| index_len := 1; columns := [("system_time", [SFloat (Fin 30)])] |}.
Proof. by vm_compute. Qed.

Lemma utilisations_loop_run (servers : list Server) (utilisations : list Q) :
  Forall (λ s, 0 < total_time s) servers →
  utilisations_loop servers utilisations
  = Returns (utilisations
             ++ map (λ s, Qred (busy_time s / total_time s)) servers).
Proof.
  intros H. revert utilisations.
  induction H as [|s servers Hs _ IH]; intros utilisations; cbn.
  - by rewrite app_nil_r.
  - unfold py_truediv. rewrite Qeq_bool_false.
    2:{ intros E. rewrite E in Hs. by apply Qlt_irrefl in Hs. }
    cbn. rewrite IH. by rewrite <- app_assoc.
Qed.





(** ** The loop and the network of [simulate_queue] *)

Lemma dict_set_new {K V} `{EqDecision K} (k : K) (v : V) (d : dict K V) :
  ¬ In k (map fst d) → dict_set k v d = d ++ [(k, v)].
Proof.
  induction d as [|[k' v'] d IH]; intros Hk; cbn [dict_set]; [done|].
  cbn in Hk. rewrite decide_False by (intros ->; apply Hk; by left).
  cbn. rewrite IH; [done|]. intros H. apply Hk. by right.
Qed.

Lemma dict_comprehension_acc {K V K' V'} `{EqDecision K'}
    (f : K * V → K' * V') (items : dict K V) (acc : dict K' V') :
  NoDup (map fst acc ++ map (λ kv, (f kv).1) items) →
  fold_left (λ d kv, dict_set (f kv).1 (f kv).2 d) items acc
  = acc ++ map f items.
Proof.
  revert acc. induction items as [|kv items IH]; intros acc Hnd; cbn.
  - by rewrite app_nil_r.
  - rewrite dict_set_new.
    2:{ apply NoDup_app in Hnd as (_ & Hdisj & _). intros Hin.
        apply (Hdisj (f kv).1); [by apply list_elem_of_In|]. by left. }
    rewrite IH.
    + rewrite <- app_assoc. cbn. by destruct (f kv).
    + rewrite map_app. cbn. rewrite <- app_assoc. exact Hnd.
Qed.

(** A comprehension over items whose new keys are distinct keeps one entry
    per item, in order. *)
Lemma dict_comprehension_map {K V K' V'} `{EqDecision K'}
    (f : K * V → K' * V') (items : dict K V) :
  NoDup (map (λ kv, (f kv).1) items) →
  dict_comprehension f items = map f items.
Proof. intros H. unfold dict_comprehension. by rewrite dict_comprehension_acc. Qed.

Lemma zip_range_fst {A} (j n : nat) (l : list A) :
  map fst (zip (seq j n) l) = seq j (n `min` length l).
Proof.
  revert j n. induction l as [|x l IH]; intros j [|n]; cbn; try done.
  by rewrite IH.
Qed.

Lemma filter_mask_map {A} (p : A → bool) (l : list A) :
  filter_mask l (map p l) = List.filter p l.
Proof.
  induction l as [|x l IH]; [done|]. cbn. rewrite IH. by destruct (p x).
Qed.

Lemma cluster_mask (label : nat) (df : DataFrame) :
  filter_mask df
    (map (λ c, bool_decide (c = Z.of_nat label))
         (map (λ ir : Z * Row, cluster ir.2) df))
  = cluster_rows label df.
Proof. rewrite map_map. apply filter_mask_map. Qed.

(** The loop gives every pair its own entry, in order, and raises
    nothing. *)
Lemma queue_params_loop_run (σ : store) (data : loc) (df : DataFrame)
    (sigma : Q) (pairs : list (nat * Q)) (acc : dict nat queue_params) :
  σ !! data = Some df →
  NoDup (map fst acc ++ map fst pairs) →
  ∃ σ', queue_params_loop data sigma pairs acc σ
        = (Returns (acc ++ map (λ lp, (lp.1, estimate (cluster_rows lp.1 df)
                                                      lp.2 sigma)) pairs),
           σ')
        ∧ σ ⊆ σ'.
Proof.
  revert σ acc. induction pairs as [|[label prop] pairs IH];
    intros σ acc Hdata Hnd; cbn [queue_params_loop].
  - exists σ. by rewrite app_nil_r.
  - rewrite (bind_returns _ _ _ _ _ (getitem_int_run σ data cluster df Hdata)).
    destruct (getitem_mask_run σ data
                (map (λ c, bool_decide (c = Z.of_nat label))
                     (map (λ ir : Z * Row, cluster ir.2) df)) df Hdata)
      as (c & Ec & Hc).
    rewrite (bind_returns _ _ _ _ _ Ec), cluster_mask.
    set (σ1 := <[c := cluster_rows label df]> σ).
    destruct (get_queue_params_run σ1 c (cluster_rows label df) prop sigma
                (lookup_insert_eq _ _ _)) as (σ2 & E2 & Hsub2).
    rewrite (bind_returns _ _ _ _ _ E2).
    assert (σ ⊆ σ2) as Hsub.
    { etrans; [|exact Hsub2]. by apply insert_subseteq. }
    rewrite dict_set_new.
    2:{ apply NoDup_app in Hnd as (_ & Hdisj & _). intros Hin.
        apply (Hdisj label); [by apply list_elem_of_In|]. by left. }
    destruct (IH σ2 (acc ++ [(label, estimate (cluster_rows label df) prop sigma)]))
      as (σ' & E & Hsub').
    + by eapply lookup_weaken.
    + rewrite map_app. cbn. rewrite <- app_assoc. exact Hnd.
    + exists σ'. rewrite E, <- app_assoc. split; [done|]. by etrans.
Qed.

Lemma expected_params_keys (df : DataFrame) (props : list Q) (sigma : Q) :
  map fst (expected_params df props sigma)
  = seq 0 (nunique (map (λ ir : Z * Row, cluster ir.2) df) `min` length props).
Proof.
  unfold expected_params. rewrite map_map. cbn.
  apply (zip_range_fst 0).
Qed.

Lemma class_name_inj : Inj (=) (=) class_name.
Proof.
  intros a b H. unfold class_name in H.
  apply (inj pretty). by simplify_eq.
Qed.

Lemma class_names_NoDup (n : nat) : NoDup (map class_name (seq 0 n)).
Proof.
  apply (NoDup_fmap_2 (Inj0 := class_name_inj) class_name), NoDup_seq.
Qed.

(** ** Running [simulate_queue] *)

Section simulate_queue_run.

Context {RNG : Type}.
Variable ciw_seed : Z → RNG.
Variable ciw_simulate : Network → Q → SR RNG Simulation.

Lemma on_frames_run {A} (m : M A) (w : @world RNG) (r : result A) (σ' : store) :
  m (frames w) = (r, σ') → on_frames m w = (r, {| frames := σ'; rng := rng w |}).
Proof. intros H. unfold on_frames. by rewrite H. Qed.

(** Whatever the generators held, the call seeds them, estimates the
    parameters label by label and hands the network to ciw; the result
    and the generators afterwards are ciw's. *)
Lemma simulate_queue_run (w : @world RNG) (data : loc) (df : DataFrame)
    (props : list Q) (num_servers seed : Z) (max_time sigma : Q) :
  frames w !! data = Some df →
  ∃ σ',
    simulate_queue ciw_seed ciw_simulate data props num_servers seed max_time
                   sigma w
    = (let (r, g) :=
         ciw_simulate (network_of (expected_params df props sigma) num_servers)
                      max_time (ciw_seed seed) in
       (r, {| frames := σ'; rng := g |}))
    ∧ queue_params_loop data sigma
        (zip (seq 0 (nunique (map (λ ir : Z * Row, cluster ir.2) df))) props)
        [] (frames w)
      = (Returns (expected_params df props sigma), σ')
    ∧ frames w ⊆ σ'.
Proof.
  intros Hdata. unfold simulate_queue.
  set (w0 := {| frames := frames w; rng := ciw_seed seed |}).
  rewrite (bind_returns _ _ w w0 tt) by done.
  rewrite (bind_returns _ _ _ _ _
             (on_frames_run _ w0 _ _
                (getitem_int_run (frames w) data cluster df Hdata))).
  destruct (queue_params_loop_run (frames w) data df sigma
              (zip (seq 0 (nunique (map (λ ir : Z * Row, cluster ir.2) df)))
                   props) [] Hdata) as (σ' & E & Hsub).
  { cbn. rewrite zip_range_fst. apply NoDup_seq. }
  cbn [app] in E. fold (expected_params df props sigma) in E.
  exists σ'. split_and!; [|done|done].
  change {| frames := frames w0; rng := rng w0 |} with w0.
  rewrite (bind_returns _ _ _ _ _ (on_frames_run _ w0 _ _ E)).
  done.
Qed.

End simulate_queue_run.

Lemma dict_get_absent {K V} `{EqDecision K} (k : K) (d : dict K V) :
  ¬ In k (map fst d) → dict_get k d = None.
Proof.
  induction d as [|[k' v] d IH]; intros Hk; [done|].
  rewrite dict_get_cons. cbn in Hk.
  rewrite decide_False by (intros ->; apply Hk; by left).
  apply IH. intros H. apply Hk. by right.
Qed.




(** ** Properties of [ShiftedExponential] and [simulate_queue] *)

(** C5, as amended.  Nothing in the module validates a parameter.  The
    constructor of [ShiftedExponential] returns, for every rate and shift
    (a rate that is not positive and a negative shift included), an object
    that holds exactly the two values; and [simulate_queue] hands ciw a
    network whose number of servers is [num_servers] as given, together
    with [max_time] as given, whatever their sign: a refusal can only come
    from ciw. *)
Theorem no_parameter_validation {RNG : Type} (ciw_seed : Z → RNG)
    (ciw_simulate : Network → Q → SR RNG Simulation) (w : @world RNG)
    (data : loc) (df : DataFrame) (props : list Q) (num_servers seed : Z)
    (max_time sigma : Q) :
  frames w !! data = Some df →
  (∀ (num : Type) (rate shift : num),
     ShiftedExponential.__init__ rate shift
     = Returns (ShiftedExponential.new rate shift))
  ∧ ∃ all_queue_params σ',
      number_of_servers (network_of all_queue_params num_servers)
      = [num_servers]
      ∧ simulate_queue ciw_seed ciw_simulate data props num_servers seed
                       max_time sigma w
        = (let (r, g) :=
             ciw_simulate (network_of all_queue_params num_servers) max_time
                          (ciw_seed seed) in
           (r, {| frames := σ'; rng := g |})).
Proof.
  intros Hdata. split; [done|].
  destruct (simulate_queue_run ciw_seed ciw_simulate w data df props
              num_servers seed max_time sigma Hdata) as (σ' & E & _).
  by exists (expected_params df props sigma), σ'.
Qed.

(** C5, the counterexample.  A rate of -1 and a shift of -5 are accepted
    as they are. *)
Lemma shifted_exponential_counterexample :
  ShiftedExponential.__init__ (Fin (-1)) (Fin (-5))
  = Returns (ShiftedExponential.new (Fin (-1)) (Fin (-5)))
  ∧ rejects_or_clamps (ShiftedExponential.__init__ (Fin (-1)) (Fin (-5)))
    = false.
Proof. split; reflexivity. Qed.

Lemma minus_ln_nonneg (u : R) : (0 <= u < 1)%R → (0 <= - ln (1 - u))%R.
Proof.
  intros Hu. assert (ln (1 - u) <= 0)%R; [|lra].
  destruct (Req_dec u 0) as [->|Hne].
  - rewrite Rminus_0_r, ln_1. lra.
  - rewrite <- ln_1. left. apply ln_increasing; lra.
Qed.

(** C7, as amended.  Every draw of [sample] is the shift plus the draw
    of [expovariate(rate)].  For a positive rate that draw is not
    negative, so the sample is at least the shift; for a negative rate,
    which the constructor accepts as well, the draw is not positive and
    the sample is at most the shift; for a rate of zero [sample] raises
    [ZeroDivisionError]. *)
Theorem sample_bound_by_rate {RNG : Type} (random : RNG → R * RNG)
    (self : ShiftedExponential.t R) (g : RNG) :
  (0 <= (random g).1 < 1)%R →
  ((0 < ShiftedExponential.rate self)%R →
   ∃ e : R,
     (expovariate random (ShiftedExponential.rate self) g).1 = Returns e
     ∧ (0 <= e)%R
     ∧ (ShiftedExponential.sample random self g).1
       = Returns (ShiftedExponential.shift self + e)%R
     ∧ (ShiftedExponential.shift self
        <= ShiftedExponential.shift self + e)%R)
  ∧ ((ShiftedExponential.rate self < 0)%R →
     ∃ e : R,
       (expovariate random (ShiftedExponential.rate self) g).1 = Returns e
       ∧ (e <= 0)%R
       ∧ (ShiftedExponential.sample random self g).1
         = Returns (ShiftedExponential.shift self + e)%R
       ∧ (ShiftedExponential.shift self + e
          <= ShiftedExponential.shift self)%R)
  ∧ (ShiftedExponential.rate self = 0%R →
     (ShiftedExponential.sample random self g).1 = Raises ZeroDivisionError).
Proof.
  intros Hu. unfold ShiftedExponential.sample.
  unfold mbind, SR_bind, expovariate.
  destruct (random g) as [u g']. cbn [fst] in Hu.
  pose proof (minus_ln_nonneg u Hu) as Hln.
  destruct (Req_dec_T (ShiftedExponential.rate self) 0) as [E|Hne].
  { split_and!; [intros; lra|intros; lra|done]. }
  split_and!; [| |done].
  - intros Hrate.
    assert (0 <= - ln (1 - u) / ShiftedExponential.rate self)%R as He.
    { apply Rle_mult_inv_pos; lra. }
    eexists. split_and!; [reflexivity|exact He|reflexivity|lra].
  - intros Hrate.
    assert (- ln (1 - u) / ShiftedExponential.rate self <= 0)%R as He.
    { assert (0 <= - ln (1 - u) / - ShiftedExponential.rate self)%R as H.
      { apply Rle_mult_inv_pos; lra. }
      replace (- ln (1 - u) / ShiftedExponential.rate self)%R
        with (- (- ln (1 - u) / - ShiftedExponential.rate self))%R
        by (field; lra).
      lra. }
    eexists. split_and!; [reflexivity|exact He|reflexivity|lra].
Qed.

(** C7, the counterexample.  With a rate of -1, a shift of -5 and a
    uniform draw of 1/2 the sample is [-5 + ln (1/2)], below the shift. *)
Lemma sample_below_shift_counterexample :
  (ShiftedExponential.sample half_draws
     (ShiftedExponential.new (-1)%R (-5)%R) tt).1
  = Returns (-5 + - ln (1 - 1 / 2) / -1)%R
  ∧ (-5 + - ln (1 - 1 / 2) / -1 < -5)%R.
Proof.
  split.
  - unfold ShiftedExponential.sample, mbind, SR_bind, expovariate, half_draws.
    cbn. destruct (Req_dec_T (-1) 0) as [E|_]; [lra|]. done.
  - assert (ln (1 - 1 / 2) < 0)%R as H.
    { rewrite <- ln_1. apply ln_increasing; lra. }
    lra.
Qed.

(** For a negative rate the draw of [expovariate] is negative, and the
    sample falls below the shift: with a rate of -1 and a uniform draw of
    1/2 the sample is [shift + ln (1/2)]. *)
Remark sample_negative_rate (shift : R) :
  (ShiftedExponential.sample (λ g : unit, ((1 / 2)%R, g))
                             (ShiftedExponential.new (-1)%R shift) tt).1
  = Returns (shift + - ln (1 - 1 / 2) / -1)%R
  ∧ (shift + - ln (1 - 1 / 2) / -1 < shift)%R.
Proof.
  split.
  - unfold ShiftedExponential.sample, mbind, SR_bind, expovariate. cbn.
    destruct (Req_dec_T (-1) 0) as [E|_]; [lra|]. done.
  - assert (ln (1 - 1 / 2) < 0)%R as H.
    { rewrite <- ln_1. apply ln_increasing; lra. }
    lra.
Qed.

(** C8.  For a fixed seed, dataset and parameter set, two invocations of
    [simulate_queue] give the same result (the same simulation with the
    same sequence of records, or the same exception) and leave the
    generators in the same state, whatever state the generators were in
    before each call and wherever the dataset is stored. *)
Theorem simulate_queue_reproducible {RNG : Type} (ciw_seed : Z → RNG)
    (ciw_simulate : Network → Q → SR RNG Simulation) (w1 w2 : @world RNG)
    (data1 data2 : loc) (df : DataFrame) (props : list Q)
    (num_servers seed : Z) (max_time sigma : Q) :
  frames w1 !! data1 = Some df →
  frames w2 !! data2 = Some df →
  (simulate_queue ciw_seed ciw_simulate data1 props num_servers seed max_time
                  sigma w1).1
  = (simulate_queue ciw_seed ciw_simulate data2 props num_servers seed
                    max_time sigma w2).1
  ∧ rng (simulate_queue ciw_seed ciw_simulate data1 props num_servers seed
                        max_time sigma w1).2
    = rng (simulate_queue ciw_seed ciw_simulate data2 props num_servers seed
                          max_time sigma w2).2.
Proof.
  intros H1 H2.
  destruct (simulate_queue_run ciw_seed ciw_simulate w1 data1 df props
              num_servers seed max_time sigma H1) as (σ1 & -> & _).
  destruct (simulate_queue_run ciw_seed ciw_simulate w2 data2 df props
              num_servers seed max_time sigma H2) as (σ2 & -> & _).
  by destruct (ciw_simulate _ max_time (ciw_seed seed)).
Qed.


Lemma no_parameter_validation_witness :
  (∀ (num : Type) (rate shift : num),
     ShiftedExponential.__init__ rate shift
     = Returns (ShiftedExponential.new rate shift))
  ∧ ∃ all_queue_params σ',
      number_of_servers (network_of all_queue_params 0) = [0%Z]
      ∧ simulate_queue counter_seed idle_run 0%nat [1] 0 42 (-1) 1
                       (world_of three_admissions 7)
        = (let (r, g) :=
             idle_run (network_of all_queue_params 0) (-1) (counter_seed 42) in
           (r, {| frames := σ'; rng := g |})).
Proof.
  apply (no_parameter_validation counter_seed idle_run
           (world_of three_admissions 7) 0%nat three_admissions [1] 0 42 (-1) 1).
  reflexivity.
Defined.

Lemma sample_bound_by_rate_witness :
  ((0 < 2)%R →
   ∃ e : R,
     (expovariate zero_draws 2 tt).1 = Returns e
     ∧ (0 <= e)%R
     ∧ (ShiftedExponential.sample zero_draws
          (ShiftedExponential.new 2%R 1%R) tt).1
       = Returns (1 + e)%R
     ∧ (1 <= 1 + e)%R)
  ∧ ((2 < 0)%R →
     ∃ e : R,
       (expovariate zero_draws 2 tt).1 = Returns e
       ∧ (e <= 0)%R
       ∧ (ShiftedExponential.sample zero_draws
            (ShiftedExponential.new 2%R 1%R) tt).1
         = Returns (1 + e)%R
       ∧ (1 + e <= 1)%R)
  ∧ (2%R = 0%R →
     (ShiftedExponential.sample zero_draws
        (ShiftedExponential.new 2%R 1%R) tt).1
     = Raises ZeroDivisionError).
Proof.
  apply (sample_bound_by_rate zero_draws (ShiftedExponential.new 2%R 1%R) tt).
  cbn. lra.
Defined.

Lemma simulate_queue_reproducible_witness :
  (simulate_queue counter_seed idle_run 0%nat [1; 2] 3 42 1460 1
                  (world_of two_clusters 7)).1
  = (simulate_queue counter_seed idle_run 0%nat [1; 2] 3 42 1460 1
                    (world_of two_clusters 99)).1
  ∧ rng (simulate_queue counter_seed idle_run 0%nat [1; 2] 3 42 1460 1
                        (world_of two_clusters 7)).2
    = rng (simulate_queue counter_seed idle_run 0%nat [1; 2] 3 42 1460 1
                          (world_of two_clusters 99)).2.
Proof.
  apply (simulate_queue_reproducible counter_seed idle_run
           (world_of two_clusters 7) (world_of two_clusters 99) 0%nat 0%nat
           two_clusters [1; 2] 3 42 1460 1).
  - reflexivity.
  - reflexivity.
Defined.


(** Two clusters and a single entry of [props]: cluster 1 gets no
    parameters, and the network knows "Class 0" only. *)
Example simulate_queue_short_props :
  (queue_params_loop 0%nat 1 (zip (seq 0 2) [1]) []
                     {[ 0%nat := two_clusters ]}).1
  = Returns [ (0%nat, {| arrival := Fin (3 # 4);
                         service := (Fin (1 # 2), Fin 1) |}) ]
  ∧ network_of [ (0%nat, {| arrival := Fin (3 # 4);
                            service := (Fin (1 # 2), Fin 1) |}) ] 3
    = {| arrival_distributions := [ ("Class 0", [ Exponential (Fin (3 # 4)) ]) ];
         service_distributions :=
           [ ("Class 0",
              [ Shifted (ShiftedExponential.new (Fin (1 # 2)) (Fin 1)) ]) ];
         number_of_servers := [ 3%Z ] |}.
Proof. split; by vm_compute. Qed.

(** ** The parameter file *)

Lemma str_split_nonempty (sep : Ascii.ascii) (s : string) : str_split sep s ≠ [].
Proof.
  destruct s as [|c s]; cbn; [done|].
  destruct (Ascii.eqb c sep); [done|]. by destruct (str_split sep s).
Qed.

Lemma str_split_no_sep (sep : Ascii.ascii) (s : string) :
  occurs sep s = false → str_split sep s = [s].
Proof.
  induction s as [|c s IH]; cbn; [done|].
  intros [Hc Hs]%orb_false_iff. rewrite Hc, (IH Hs). done.
Qed.

Lemma str_split_piece (sep : Ascii.ascii) (piece rest : string) :
  occurs sep piece = false →
  str_split sep (piece ++ String sep rest)%string
  = piece :: str_split sep rest.
Proof.
  induction piece as [|c piece IH]; cbn [occurs].
  - intros _. change (str_split sep (String sep rest) = "" :: str_split sep rest).
    cbn. by rewrite Ascii.eqb_refl.
  - intros [Hc Hs]%orb_false_iff.
    change (str_split sep (String c (piece ++ String sep rest))
            = String c piece :: str_split sep rest).
    cbn. rewrite Hc, (IH Hs). done.
Qed.

(** Splitting undoes joining, for pieces that are free of the
    separator. *)
Lemma str_split_concat (sep : Ascii.ascii) (pieces : list string) :
  pieces ≠ [] →
  Forall (λ piece, occurs sep piece = false) pieces →
  str_split sep (String.concat (String sep EmptyString) pieces) = pieces.
Proof.
  intros Hne H. induction H as [|piece pieces Hp Hps IH]; [done|].
  destruct pieces as [|piece' pieces].
  - by apply str_split_no_sep.
  - change (String.concat (String sep "") (piece :: piece' :: pieces))
      with (piece ++ String sep (String.concat (String sep "")
                                   (piece' :: pieces)))%string.
    rewrite (str_split_piece sep piece _ Hp). rewrite IH; [done|done].
Qed.

Lemma map_result_returns {A B} (f : A → result B) (l : list A) (l' : list B) :
  Forall2 (λ x y, f x = Returns y) l l' → map_result f l = Returns l'.
Proof.
  induction 1 as [|x y l l' Hx _ IH]; cbn; [done|]. by rewrite Hx, IH.
Qed.

Lemma all_but_last_two_app {A} (l : list A) (x y : A) :
  all_but_last_two (l ++ [x; y]) = l.
Proof.
  unfold all_but_last_two. rewrite length_app. cbn [length].
  replace (length l + 2 - 2)%nat with (length l) by lia.
  by rewrite take_app_length.
Qed.

Lemma last_but_one_app {A} (l : list A) (x y : A) :
  last_but_one (l ++ [x; y]) = Returns x.
Proof.
  unfold last_but_one. rewrite length_app. cbn [length].
  replace (length l + 2 - 2)%nat with (length l) by lia.
  destruct (Nat.leb_spec 2 (length l + 2)) as [_|H]; [|lia].
  by rewrite list_lookup_middle.
Qed.

(** A parameter file written as fields joined by single spaces is read
    back field by field: [PROPS] are the floats of all fields but the last
    two, [NUM_SERVERS] is the integer of the last but one, and the last
    field is not read. *)
Theorem load_params_fields (py_float : string → result float64)
    (py_int : string → result Z) (fields : list string)
    (servers last : string) (props : list float64) (num_servers : Z) :
  Forall (λ field, occurs " "%char field = false) (fields ++ [servers; last]) →
  Forall2 (λ field x, py_float field = Returns x) fields props →
  py_int servers = Returns num_servers →
  load_params py_float py_int
    (String.concat " " (fields ++ [servers; last]))
  = Returns (props, num_servers).
Proof.
  intros Hfree Hprops Hservers. unfold load_params.
  assert (fields ++ [servers; last] ≠ []) as Hne by by destruct fields.
  rewrite (str_split_concat " "%char _ Hne Hfree).
  rewrite all_but_last_two_app, last_but_one_app.
  rewrite (map_result_returns _ _ _ Hprops). cbn. by rewrite Hservers.
Qed.

Lemma load_params_fields_witness :
  load_params read_float read_int
    (String.concat " " (["0.5"; "1.25"] ++ ["40"; "1460"]))
  = Returns ([Fin (1 # 2); Fin (5 # 4)], 40%Z).
Proof.
  apply (load_params_fields read_float read_int ["0.5"; "1.25"] "40" "1460"
           [Fin (1 # 2); Fin (5 # 4)] 40).
  - repeat constructor.
  - repeat constructor.
  - reflexivity.
Defined.

(** A parameter file without a space has a single field: reading it
    raises [IndexError], whatever the field is, and no number is read. *)
Theorem load_params_one_field (py_float : string → result float64)
    (py_int : string → result Z) (content : string) :
  occurs " "%char content = false →
  load_params py_float py_int content = Raises IndexError.
Proof.
  intros H. unfold load_params. by rewrite (str_split_no_sep " "%char content H).
Qed.

Lemma load_params_one_field_witness :
  load_params read_float read_int "40" = Raises IndexError.
Proof. apply (load_params_one_field read_float read_int "40"). reflexivity. Defined.

(** A field that [float] refuses ends the reading with its exception,
    before the number of servers is looked at. *)
Lemma map_result_raises {A B} (f : A → result B) (good : list A) (bad : A)
    (rest : list A) (values : list B) (e : exn) :
  Forall2 (λ x y, f x = Returns y) good values →
  f bad = Raises e →
  map_result f (good ++ bad :: rest) = Raises e.
Proof.
  induction 1 as [|x y l l' Hx _ IH]; intros Hbad; cbn.
  - by rewrite Hbad.
  - by rewrite Hx, IH.
Qed.

(** A field among [PROPS] that [float] refuses ends the reading with the
    exception of [float], whatever the fields after it hold: the number
    of servers is not looked at. *)
Theorem load_params_bad_float (py_float : string → result float64)
    (py_int : string → result Z) (good : list string) (bad : string)
    (rest : list string) (servers last : string) (values : list float64)
    (e : exn) :
  Forall (λ field, occurs " "%char field = false)
         ((good ++ bad :: rest) ++ [servers; last]) →
  Forall2 (λ field x, py_float field = Returns x) good values →
  py_float bad = Raises e →
  load_params py_float py_int
    (String.concat " " ((good ++ bad :: rest) ++ [servers; last]))
  = Raises e.
Proof.
  intros Hfree Hgood Hbad. unfold load_params.
  assert ((good ++ bad :: rest) ++ [servers; last] ≠ []) as Hne
    by by destruct good.
  rewrite (str_split_concat " "%char _ Hne Hfree), all_but_last_two_app.
  by rewrite (map_result_raises _ _ _ _ _ _ Hgood Hbad).
Qed.

Lemma load_params_bad_float_witness :
  load_params read_float read_int
    (String.concat " " ((["0.5"] ++ "abc" :: ["1.25"]) ++ ["40"; "1460"]))
  = Raises ValueError.
Proof.
  apply (load_params_bad_float read_float read_int ["0.5"] "abc" ["1.25"]
           "40" "1460" [Fin (1 # 2)] ValueError).
  - repeat constructor.
  - repeat constructor.
  - reflexivity.
Defined.

(** ** The arrival rate over the span of the admissions *)

Lemma last_default_irrel {A} (l : list A) (a d d' : A) :
  List.last (a :: l) d = List.last (a :: l) d'.
Proof. revert a. induction l as [|b l IH]; intros a; [done|]. apply (IH b). Qed.

Lemma last_cons {A} (l : list A) (a d : A) :
  List.last (a :: l) d = List.last l a.
Proof. destruct l as [|b l]; [done|]. apply (last_default_irrel l b). Qed.

Lemma Qsum_gaps (t : Timestamp) (ts : list Timestamp) :
  Qsum (gaps_in_days (t :: ts)) == (List.last ts t - t) # nanoseconds_per_day.
Proof.
  revert t. induction ts as [|t' ts IH]; intros t.
  - cbn. unfold Qeq. cbn. lia.
  - change (gaps_in_days (t :: t' :: ts))
      with (((t' - t) # nanoseconds_per_day) :: gaps_in_days (t' :: ts)).
    change (Qsum (?x :: ?l)) with (x + Qsum l). rewrite IH.
    rewrite Qinv_plus_distr.
    rewrite (last_cons ts t' t). unfold Qeq. cbn. lia.
Qed.

Lemma sorted_index (df : DataFrame) :
  Sorted Z.le (map fst (merge_sort label_le
                          (map (λ ir : Z * Row, (admission_date ir.2, ir.2)) df)))
  ∧ map fst (merge_sort label_le
               (map (λ ir : Z * Row, (admission_date ir.2, ir.2)) df))
    ≡ₚ admissions df.
Proof.
  split.
  - apply (Sorted_fmap fst label_le Z.le); [done|].
    apply (Sorted_merge_sort label_le).
  - rewrite <- set_index_labels.
    apply (fmap_Permutation fst), merge_sort_Permutation.
Qed.

Lemma sorted_le_last (s : list Z) (t y : Z) :
  Sorted Z.le (t :: s) → y ∈ t :: s → (t ≤ y ≤ List.last s t)%Z.
Proof.
  intros Hs%(Sorted_StronglySorted Z.le). revert t y Hs.
  induction s as [|t' s IH]; intros t y Hs Hy.
  - apply list_elem_of_singleton in Hy as ->. cbn. lia.
  - apply StronglySorted_inv in Hs as [Hs Hall].
    assert (t ≤ t')%Z as Htt' by by inversion Hall.
    rewrite (last_cons s t' t).
    apply elem_of_cons in Hy as [->|Hy].
    + specialize (IH t' t' Hs (list_elem_of_here _ _)). lia.
    + specialize (IH t' y Hs Hy). lia.
Qed.

(** The arrival rate, for a frame whose rows are in any order: [sigma]
    over the span of the admissions in days divided by their number. *)
Lemma estimate_arrival_span (df : DataFrame) (prop sigma : Q) (lo hi : Timestamp) :
  lo ∈ admissions df → hi ∈ admissions df →
  (∀ t, t ∈ admissions df → (lo ≤ t ≤ hi)%Z) →
  arrival (estimate df prop sigma)
  = np_div (Fin sigma)
      (Fin (((hi - lo) # nanoseconds_per_day) / (Z.of_nat (length df) # 1))).
Proof.
  intros Hlo Hhi Hall. unfold estimate. cbn [arrival].
  destruct (sorted_index df) as [Hs Hp].
  destruct (map fst _) as [|t s] eqn:E.
  { apply Permutation_nil_l in Hp. rewrite <- Hp in Hlo. by apply elem_of_nil in Hlo. }
  assert (t = lo) as ->.
  { assert (t ∈ admissions df) as Ht by (rewrite <- Hp; apply list_elem_of_here).
    assert (lo ∈ t :: s) as Hlo' by by rewrite Hp.
    pose proof (sorted_le_last s t lo Hs Hlo'). specialize (Hall t Ht). lia. }
  assert (List.last s lo = hi) as Hlast.
  { assert (List.last s lo ∈ admissions df) as Hl.
    { rewrite <- Hp. apply list_elem_of_In.
      destruct s as [|a s]; [by left|]. right.
      change (In (List.last (a :: s) lo) (a :: s)).
      destruct (exists_last (l := a :: s)) as (s' & z & ->); [done|].
      rewrite last_last. apply in_or_app. right. by left. }
    assert (hi ∈ lo :: s) as Hhi' by by rewrite Hp.
    pose proof (sorted_le_last s lo hi Hs Hhi'). specialize (Hall _ Hl). lia. }
  apply np_div_feq; [done|].
  pose proof (Series_mean_fin _ _ (interarrival_times_fin lo s)) as H.
  unfold fin_is in H. unfold np_mean. etrans; [apply H; done|].
  cbn [feq]. unfold Qmean.
  change (Qsum (0 :: ?l)) with (0 + Qsum l).
  rewrite Qplus_0_l, Qsum_gaps. subst hi.
  cbn [length]. rewrite gaps_length.
  assert (length df = S (length s)) as ->; [|reflexivity].
  pose proof (Permutation_length Hp) as Hlen. cbn [length] in Hlen.
  rewrite Hlen. symmetry. apply admissions_length.
Qed.

Lemma np_div_Fin_pos (a b : Q) :
  0 < b → np_div (Fin a) (Fin b) = Fin (Qred (a / b)).
Proof.
  intros Hb. unfold np_div. cbn -[sgn].
  rewrite (Qeq_bool_false b 0).
  2:{ intros E. rewrite E in Hb. by apply Qlt_irrefl in Hb. }
  rewrite (sgn_pos b Hb), xorb_false_r.
  destruct (Qeq_bool a 0) eqn:Ea; [|done].
  apply Qeq_bool_iff in Ea. rewrite (sgn_zero a Ea). cbn.
  f_equal. change 0 with (Qred 0). apply Qred_complete.
  rewrite Ea. unfold Qdiv. ring.
Qed.

(** Whatever the order of the rows, a dataset whose admissions span a
    positive time gets a finite arrival rate: [sigma] divided by the span
    from the earliest to the latest admission in days over the number of
    records, that is [sigma * n / span]. *)
Theorem get_queue_params_arrival_span (σ : store) (data : loc)
    (df : DataFrame) (prop sigma : Q) (lo hi : Timestamp) :
  σ !! data = Some df →
  lo ∈ admissions df →
  hi ∈ admissions df →
  (∀ t, t ∈ admissions df → (lo ≤ t ≤ hi)%Z) →
  (lo < hi)%Z →
  ∃ p σ', get_queue_params data prop sigma σ = (Returns p, σ')
    ∧ arrival p
      = Fin (Qred (sigma / (((hi - lo) # nanoseconds_per_day)
                            / (Z.of_nat (length df) # 1)))).
Proof.
  intros Hdata Hlo Hhi Hall Hlt.
  destruct (get_queue_params_run σ data df prop sigma Hdata) as (σ' & E & _).
  exists (estimate df prop sigma), σ'. split; [done|].
  rewrite (estimate_arrival_span df prop sigma lo hi Hlo Hhi Hall).
  apply np_div_Fin_pos.
  assert (0 < length df)%nat as Hn.
  { rewrite <- admissions_length. destruct (admissions df); [|cbn; lia].
    by apply elem_of_nil in Hlo. }
  apply Qlt_shift_div_l.
  - unfold Qlt. cbn. lia.
  - rewrite Qmult_0_l. unfold Qlt. cbn. lia.
Qed.

Lemma get_queue_params_arrival_span_witness :
  ∃ p σ', get_queue_params 0%nat 1 1 {[ 0%nat := three_admissions_reversed ]}
          = (Returns p, σ')
    ∧ arrival p
      = Fin (Qred (1 / (((4 * day - 0) # nanoseconds_per_day)
                        / (Z.of_nat (length three_admissions_reversed) # 1)))).
Proof.
  apply (get_queue_params_arrival_span {[ 0%nat := three_admissions_reversed ]}
           0%nat three_admissions_reversed 1 1 0%Z (4 * day)%Z).
  - reflexivity.
  - cbn. set_solver.
  - cbn. set_solver.
  - intros t Ht. cbn in Ht. unfold day in *.
    repeat (apply elem_of_cons in Ht as [->|Ht]; [lia|]).
    by apply elem_of_nil in Ht.
  - reflexivity.
Defined.

(** A dataset whose admissions all carry one timestamp, however many
    records it has, gets an arrival rate that is not a finite number:
    [+inf] for a positive [sigma]. *)
Theorem get_queue_params_same_instant (σ : store) (data : loc)
    (df : DataFrame) (prop sigma : Q) (t0 : Timestamp) :
  σ !! data = Some df →
  df ≠ [] →
  (∀ t, t ∈ admissions df → t = t0) →
  ∃ p σ', get_queue_params data prop sigma σ = (Returns p, σ')
    ∧ is_finite (arrival p) = false
    ∧ (0 < sigma → arrival p = PInf).
Proof.
  intros Hdata Hne Hall.
  destruct (get_queue_params_run σ data df prop sigma Hdata) as (σ' & E & _).
  exists (estimate df prop sigma), σ'. split; [done|].
  assert (t0 ∈ admissions df) as Ht0.
  { destruct df as [|ir df]; [done|]. cbn.
    rewrite (Hall (admission_date ir.2)); [apply list_elem_of_here|].
    cbn. apply list_elem_of_here. }
  rewrite (estimate_arrival_span df prop sigma t0 t0 Ht0 Ht0).
  2:{ intros t Ht. rewrite (Hall t Ht). lia. }
  rewrite (np_div_feq (Fin sigma) (Fin sigma) _ (Fin 0)); [apply np_div_zero|done|].
  cbn [feq]. rewrite Z.sub_diag. unfold Qeq. cbn. lia.
Qed.

Lemma get_queue_params_same_instant_witness :
  ∃ p σ', get_queue_params 0%nat 1 1 {[ 0%nat := same_instant ]}
          = (Returns p, σ')
    ∧ is_finite (arrival p) = false
    ∧ (0 < 1 → arrival p = PInf).
Proof.
  apply (get_queue_params_same_instant {[ 0%nat := same_instant ]} 0%nat
           same_instant 1 1 day).
  - reflexivity.
  - discriminate.
  - intros t Ht. cbn in Ht.
    repeat (apply elem_of_cons in Ht as [->|Ht]; [done|]).
    by apply elem_of_nil in Ht.
Defined.

(** ** The estimate and the order of the rows *)

Lemma Qsum_Permutation (l l' : list Q) : l ≡ₚ l' → Qsum l == Qsum l'.
Proof.
  induction 1 as [|x l l' _ IH|x y l|l l' l'' _ IH _ IH']; cbn.
  - reflexivity.
  - by rewrite IH.
  - ring.
  - by rewrite IH.
Qed.

Lemma Qsum_shifted (l : list Q) (s : Q) :
  Qsum (map (λ x, x - s) l) == Qsum l - (Z.of_nat (length l) # 1) * s.
Proof.
  induction l as [|x l IH].
  - cbn. ring.
  - change (Qsum (map (λ x, x - s) (x :: l)))
      with ((x - s) + Qsum (map (λ x, x - s) l)).
    change (Qsum (x :: l)) with (x + Qsum l). rewrite IH.
    change (length (x :: l)) with (S (length l)).
    rewrite Nat2Z.inj_succ. unfold Z.succ.
    rewrite <- (Qinv_plus_distr (Z.of_nat (length l)) 1 1). ring.
Qed.

Lemma fold_min_spec (l : list Q) (a : Q) :
  fold_left Qmin l a <= a
  ∧ Forall (λ x, fold_left Qmin l a <= x) l
  ∧ (fold_left Qmin l a == a ∨ Exists (λ x, fold_left Qmin l a == x) l).
Proof.
  revert a. induction l as [|y l IH]; intros a; cbn.
  - split_and!; [apply Qle_refl|constructor|by left].
  - destruct (IH (Qmin a y)) as (Hle & Hall & Hex).
    split_and!.
    + apply (Qle_trans _ _ _ Hle), Q.le_min_l.
    + constructor; [|done]. apply (Qle_trans _ _ _ Hle), Q.le_min_r.
    + destruct Hex as [Hex|Hex]; [|by right; right].
      destruct (Q.min_spec a y) as [[_ H]|[_ H]].
      * left. by rewrite Hex.
      * right. left. by rewrite Hex.
Qed.

(** The least element is below every element, and is one of them. *)
Lemma Qminimum_spec (l : list Q) :
  l ≠ [] →
  Forall (λ x, Qminimum l <= x) l ∧ Exists (λ x, Qminimum l == x) l.
Proof.
  destruct l as [|a l]; [done|]. intros _. cbn [Qminimum].
  destruct (fold_min_spec l a) as (Hle & Hall & Hex). split.
  - by constructor.
  - destruct Hex as [Hex|Hex]; [by left|by right].
Qed.

Lemma Qminimum_Permutation (l l' : list Q) :
  l ≡ₚ l' → Qminimum l == Qminimum l'.
Proof.
  intros Hp. destruct l as [|a l].
  { apply Permutation_nil_l in Hp as ->. reflexivity. }
  assert (l' ≠ []) as Hne'.
  { intros ->. by apply Permutation_nil_r in Hp. }
  destruct (Qminimum_spec (a :: l)) as [Hall Hex]; [done|].
  destruct (Qminimum_spec l' Hne') as [Hall' Hex'].
  apply Qle_antisym.
  - apply Exists_exists in Hex' as (x & Hx & E). rewrite E.
    rewrite Forall_forall in Hall. apply Hall. by rewrite Hp.
  - apply Exists_exists in Hex as (x & Hx & E). rewrite E.
    rewrite Forall_forall in Hall'. apply Hall'. by rewrite <- Hp.
Qed.

Lemma Qmean_shifted_Permutation (l l' : list Q) (s s' : Q) :
  l ≡ₚ l' → s == s' →
  Qmean (map (λ x, x - s) l) == Qmean (map (λ x, x - s') l').
Proof.
  intros Hp Hs. unfold Qmean. rewrite !length_map, !Qsum_shifted.
  rewrite (Qsum_Permutation l l' Hp), (Permutation_length Hp), Hs.
  reflexivity.
Qed.

Lemma sojourns_Permutation (df df' : DataFrame) :
  map snd df ≡ₚ map snd df' → sojourns df ≡ₚ sojourns df'.
Proof.
  intros H. unfold sojourns.
  rewrite <- !(map_map snd true_los). by apply (fmap_Permutation true_los).
Qed.

Lemma admissions_Permutation (df df' : DataFrame) :
  map snd df ≡ₚ map snd df' → admissions df ≡ₚ admissions df'.
Proof.
  intros H. unfold admissions.
  rewrite <- !(map_map snd admission_date).
  by apply (fmap_Permutation admission_date).
Qed.

Lemma estimate_Permutation (df df' : DataFrame) (prop sigma : Q) :
  map snd df ≡ₚ map snd df' →
  arrival (estimate df prop sigma) = arrival (estimate df' prop sigma)
  ∧ (service (estimate df prop sigma)).1 = (service (estimate df' prop sigma)).1
  ∧ feq (service (estimate df prop sigma)).2
        (service (estimate df' prop sigma)).2.
Proof.
  intros Hp. split.
  - unfold estimate. cbn [arrival].
    destruct (sorted_index df) as [Hs Hperm].
    destruct (sorted_index df') as [Hs' Hperm'].
    rewrite (Sorted_unique Z.le _ _ Hs Hs'); [done|].
    rewrite Hperm, Hperm'. by apply admissions_Permutation.
  - destruct df as [|ir df].
    { apply Permutation_nil_l in Hp. destruct df'; [done|discriminate]. }
    assert (df' ≠ []) as Hne'.
    { intros ->. by apply Permutation_nil_r in Hp. }
    rewrite (estimate_service (ir :: df) prop sigma) by done.
    rewrite (estimate_service df' prop sigma Hne'). cbn [fst snd].
    pose proof (sojourns_Permutation _ _ Hp) as Hl.
    assert (Qmax 0 (Qminimum (sojourns (ir :: df)))
            == Qmax 0 (Qminimum (sojourns df'))) as Hshift.
    { apply Q.max_compat; [reflexivity|]. by apply Qminimum_Permutation. }
    split; [|exact Hshift].
    f_equal. apply np_mul_feq; [|done]. cbn [feq].
    by apply Qmean_shifted_Permutation.
Qed.

(** The order of the rows does not matter, nor do their labels: two
    datasets with the same records get the same arrival rate, the same
    service rate and the same minimum shift. *)
Theorem get_queue_params_row_order (σ τ : store) (data data' : loc)
    (df df' : DataFrame) (prop sigma : Q) :
  σ !! data = Some df →
  τ !! data' = Some df' →
  map snd df ≡ₚ map snd df' →
  ∃ p p' σ' τ',
    get_queue_params data prop sigma σ = (Returns p, σ')
    ∧ get_queue_params data' prop sigma τ = (Returns p', τ')
    ∧ arrival p = arrival p'
    ∧ (service p).1 = (service p').1
    ∧ feq (service p).2 (service p').2.
Proof.
  intros Hdata Hdata' Hp.
  destruct (get_queue_params_run σ data df prop sigma Hdata) as (σ' & E & _).
  destruct (get_queue_params_run τ data' df' prop sigma Hdata') as (τ' & E' & _).
  exists (estimate df prop sigma), (estimate df' prop sigma), σ', τ'.
  split; [done|]. split; [done|]. by apply estimate_Permutation.
Qed.

Lemma get_queue_params_row_order_witness :
  ∃ p p' σ' τ',
    get_queue_params 0%nat 1 1 {[ 0%nat := three_admissions ]}
    = (Returns p, σ')
    ∧ get_queue_params 5%nat 1 1 {[ 5%nat := three_admissions_reversed ]}
      = (Returns p', τ')
    ∧ arrival p = arrival p'
    ∧ (service p).1 = (service p').1
    ∧ feq (service p).2 (service p').2.
Proof.
  apply (get_queue_params_row_order {[ 0%nat := three_admissions ]}
           {[ 5%nat := three_admissions_reversed ]} 0%nat 5%nat
           three_admissions three_admissions_reversed 1 1).
  - reflexivity.
  - reflexivity.
  - apply (Permutation_rev (map snd three_admissions)).
Defined.

(** ** The service rate: when it is a positive number, and when it is not *)

Lemma Qsum_nonneg (l : list Q) : Forall (λ x, 0 <= x) l → 0 <= Qsum l.
Proof.
  induction 1 as [|x l Hx _ IH]; [apply Qle_refl|].
  change (Qsum (x :: l)) with (x + Qsum l). Lqa.lra.
Qed.

Lemma Qsum_pos (l : list Q) :
  Forall (λ x, 0 <= x) l → Exists (λ x, 0 < x) l → 0 < Qsum l.
Proof.
  induction 1 as [|x l Hx Hl IH]; intros Hex; [by apply Exists_nil in Hex|].
  change (Qsum (x :: l)) with (x + Qsum l).
  apply Exists_cons in Hex as [Hpos|Hex].
  - pose proof (Qsum_nonneg l Hl). Lqa.lra.
  - specialize (IH Hex). Lqa.lra.
Qed.

Lemma Qmean_pos (l : list Q) :
  Forall (λ x, 0 <= x) l → Exists (λ x, 0 < x) l → 0 < Qmean l.
Proof.
  intros Hall Hex. unfold Qmean. apply Qlt_shift_div_l.
  - destruct l; [by apply Exists_nil in Hex|]. unfold Qlt. cbn. lia.
  - rewrite Qmult_0_l. by apply Qsum_pos.
Qed.

Lemma Qsum_constant (l : list Q) (v : Q) :
  Forall (λ x, x == v) l → Qsum l == (Z.of_nat (length l) # 1) * v.
Proof.
  induction 1 as [|x l Hx _ IH].
  - cbn. ring.
  - change (Qsum (x :: l)) with (x + Qsum l).
    change (length (x :: l)) with (S (length l)).
    rewrite IH, Hx, Nat2Z.inj_succ. unfold Z.succ.
    rewrite <- (Qinv_plus_distr (Z.of_nat (length l)) 1 1). ring.
Qed.

Lemma np_mul_Fin_pos (a b : Q) :
  0 < a → 0 < b → np_mul (Fin a) (Fin b) = Fin (Qred (a * b)).
Proof.
  intros Ha Hb. unfold np_mul. cbn -[sgn].
  rewrite !Qeq_bool_false; [done| |].
  - intros E. rewrite E in Hb. by apply Qlt_irrefl in Hb.
  - intros E. rewrite E in Ha. by apply Qlt_irrefl in Ha.
Qed.

Lemma np_mul_zero_pos (a b : Q) :
  a == 0 → 0 < b → np_mul (Fin a) (Fin b) = Fin 0.
Proof.
  intros Ha Hb. unfold np_mul. cbn -[sgn].
  rewrite (proj2 (Qeq_bool_iff a 0) Ha). cbn -[sgn].
  by rewrite (sgn_zero a Ha), (sgn_pos b Hb).
Qed.

(** For sojourns that are not negative and not all the same, and a
    positive [prop], the minimum shift is the least sojourn, no sojourn is
    below it, and the service rate is a positive number: one over the
    product of the mean excess over the shift and [prop]. *)
Theorem get_queue_params_service_positive (σ : store) (data : loc)
    (df : DataFrame) (prop sigma : Q) :
  σ !! data = Some df →
  Forall (λ x, 0 <= x) (sojourns df) →
  Exists (λ x, Qminimum (sojourns df) < x) (sojourns df) →
  0 < prop →
  ∃ p σ' r s,
    get_queue_params data prop sigma σ = (Returns p, σ')
    ∧ service p = (Fin r, Fin s)
    ∧ s == Qminimum (sojourns df)
    ∧ Forall (λ x, s <= x) (sojourns df)
    ∧ 0 < r
    ∧ r == 1 / (Qmean (map (λ x, x - s) (sojourns df)) * prop).
Proof.
  intros Hdata Hall Hex Hprop.
  destruct (get_queue_params_run σ data df prop sigma Hdata) as (σ' & E & _).
  assert (df ≠ []) as Hne by (intros ->; by apply Exists_nil in Hex).
  assert (sojourns df ≠ []) as Hl by by destruct df.
  destruct (Qminimum_spec _ Hl) as [Hmin Hmem].
  set (m := Qminimum (sojourns df)) in *.
  assert (0 <= m) as Hm.
  { apply Exists_exists in Hmem as (x & Hx & ->).
    rewrite Forall_forall in Hall. by apply Hall. }
  assert (Qmax 0 m == m) as Hs by by apply Q.max_r.
  set (s := Qmax 0 m) in *.
  assert (0 < Qmean (map (λ x, x - s) (sojourns df))) as Hmean.
  { apply Qmean_pos.
    - apply Forall_map. eapply Forall_impl; [exact Hmin|].
      intros x Hx. cbn in *. Lqa.lra.
    - apply Exists_map. eapply Exists_impl; [exact Hex|].
      intros x Hx. cbn in *. Lqa.lra. }
  assert (0 < Qmean (map (λ x, x - s) (sojourns df)) * prop) as Hprod.
  { rewrite <- (Qmult_0_l prop). by apply Qmult_lt_compat_r. }
  eexists (estimate df prop sigma), σ', _, s. split; [done|].
  split.
  { rewrite (estimate_service df prop sigma Hne). fold m. fold s.
    rewrite (np_mul_Fin_pos _ _ Hmean Hprop).
    rewrite np_div_Fin_pos; [reflexivity|]. by rewrite Qred_correct. }
  split_and!.
  - done.
  - eapply Forall_impl; [exact Hmin|]. intros x Hx. cbn in Hx. by rewrite Hs.
  - rewrite Qred_correct, Qred_correct. apply Qlt_shift_div_l; [done|].
    by rewrite Qmult_0_l.
  - by rewrite !Qred_correct.
Qed.

Lemma get_queue_params_service_positive_witness :
  ∃ p σ' r s,
    get_queue_params 0%nat 2 1 {[ 0%nat := three_admissions ]} = (Returns p, σ')
    ∧ service p = (Fin r, Fin s)
    ∧ s == Qminimum (sojourns three_admissions)
    ∧ Forall (λ x, s <= x) (sojourns three_admissions)
    ∧ 0 < r
    ∧ r == 1 / (Qmean (map (λ x, x - s) (sojourns three_admissions)) * 2).
Proof.
  apply (get_queue_params_service_positive {[ 0%nat := three_admissions ]}
           0%nat three_admissions 2 1).
  - reflexivity.
  - repeat constructor; discriminate.
  - right. left. reflexivity.
  - reflexivity.
Defined.

(** For sojourns that are all the same, and not negative, the shift
    takes all of each sojourn, the mean excess is zero and the service
    rate is [+inf], for every positive [prop]. *)
Theorem get_queue_params_constant_sojourn (σ : store) (data : loc)
    (df : DataFrame) (prop sigma v : Q) :
  σ !! data = Some df →
  df ≠ [] →
  0 <= v →
  Forall (λ x, x == v) (sojourns df) →
  0 < prop →
  ∃ p σ', get_queue_params data prop sigma σ = (Returns p, σ')
    ∧ (service p).1 = PInf
    ∧ feq (service p).2 (Fin v).
Proof.
  intros Hdata Hne Hv Hall Hprop.
  destruct (get_queue_params_run σ data df prop sigma Hdata) as (σ' & E & _).
  exists (estimate df prop sigma), σ'. split; [done|].
  assert (sojourns df ≠ []) as Hl by by destruct df.
  destruct (Qminimum_spec _ Hl) as [_ Hmem].
  set (m := Qminimum (sojourns df)) in *.
  assert (m == v) as Hm.
  { apply Exists_exists in Hmem as (x & Hx & ->).
    rewrite Forall_forall in Hall. by apply Hall. }
  assert (Qmax 0 m == v) as Hs.
  { rewrite <- Hm. apply Q.max_r. by rewrite Hm. }
  rewrite (estimate_service df prop sigma Hne). fold m. cbn [fst snd].
  split; [|exact Hs].
  rewrite np_mul_zero_pos; [by apply np_div_zero| |done].
  unfold Qmean. rewrite length_map, Qsum_shifted, (Qsum_constant _ v Hall), Hs.
  unfold Qdiv. ring.
Qed.

Lemma get_queue_params_constant_sojourn_witness :
  ∃ p σ', get_queue_params 0%nat 1 1 {[ 0%nat := constant_sojourns ]}
          = (Returns p, σ')
    ∧ (service p).1 = PInf
    ∧ feq (service p).2 (Fin 2).
Proof.
  apply (get_queue_params_constant_sojourn {[ 0%nat := constant_sojourns ]}
           0%nat constant_sojourns 1 1 2).
  - reflexivity.
  - discriminate.
  - discriminate.
  - repeat constructor.
  - reflexivity.
Defined.

(** ** Tags, shape and errors of the result tables *)

Lemma set_tags_cons (k : string) (v : scalar) (kwargs : dict string scalar)
    (df : Table) :
  set_tags ((k, v) :: kwargs) df = set_tags kwargs (setitem_scalar k v df).
Proof. done. Qed.

Lemma set_tags_index_len (kwargs : dict string scalar) (df : Table) :
  index_len (set_tags kwargs df) = index_len df.
Proof.
  revert df. induction kwargs as [|[k v] kwargs IH]; intros df; [done|].
  by rewrite set_tags_cons, IH.
Qed.

(** A tag is a column that holds its value on every row. *)
Lemma set_tags_tag (kwargs : dict string scalar) (df : Table) (key : string)
    (value : scalar) :
  NoDup (map fst kwargs) →
  In (key, value) kwargs →
  column key (set_tags kwargs df) = Some (replicate (index_len df) value).
Proof.
  revert df. induction kwargs as [|[k v] kwargs IH]; intros df Hnd Hin; [done|].
  rewrite set_tags_cons. cbn in Hnd. apply NoDup_cons in Hnd as [Hk Hnd].
  destruct Hin as [[= -> ->]|Hin].
  - destruct (set_tags_frame key kwargs (setitem_scalar key value df)) as [_ ->].
    { apply dict_get_absent. intros H. apply Hk. by apply list_elem_of_In. }
    unfold column, setitem_scalar. cbn [columns index_len].
    apply dict_get_set_eq.
  - by rewrite (IH (setitem_scalar k v df) Hnd Hin).
Qed.

Lemma dict_set_Forall {K V} `{EqDecision K} (P : K * V → Prop)
    (k : K) (v : V) (d : dict K V) :
  P (k, v) → Forall P d → Forall P (dict_set k v d).
Proof.
  intros Hv. induction 1 as [|[k' v'] d Hkv Hd IH]; cbn [dict_set].
  - by repeat constructor.
  - destruct (decide (k = k')) as [<-|]; by constructor.
Qed.

Lemma setitem_scalar_rectangular (key : string) (value : scalar) (df : Table) :
  rectangular df → rectangular (setitem_scalar key value df).
Proof.
  unfold rectangular, setitem_scalar. cbn [columns index_len]. intros H.
  apply dict_set_Forall; [|done]. apply length_replicate.
Qed.

Lemma set_tags_rectangular (kwargs : dict string scalar) (df : Table) :
  rectangular df → rectangular (set_tags kwargs df).
Proof.
  revert df. induction kwargs as [|[k v] kwargs IH]; intros df H; [done|].
  rewrite set_tags_cons. by apply IH, setitem_scalar_rectangular.
Qed.

Lemma set_tags_keys (kwargs : dict string scalar) (df : Table) :
  NoDup (map fst (columns df) ++ map fst kwargs) →
  map fst (columns (set_tags kwargs df)) = map fst (columns df) ++ map fst kwargs.
Proof.
  revert df. induction kwargs as [|[k v] kwargs IH]; intros df Hnd.
  - by rewrite app_nil_r.
  - rewrite set_tags_cons, IH; unfold setitem_scalar; cbn [columns].
    + rewrite dict_set_new.
      * rewrite map_app. cbn. by rewrite <- app_assoc.
      * apply NoDup_app in Hnd as (_ & Hdisj & _). intros Hin.
        apply (Hdisj k); [by apply list_elem_of_In|]. cbn. left.
    + rewrite dict_set_new.
      * rewrite map_app. cbn. by rewrite <- app_assoc.
      * apply NoDup_app in Hnd as (_ & Hdisj & _). intros Hin.
        apply (Hdisj k); [by apply list_elem_of_In|]. cbn. left.
Qed.

(** The two tables before the tags are set. *)
Lemma get_system_times_unfold (queue : Simulation) (max_time : Q)
    (kwargs : dict string scalar) :
  get_system_times queue max_time kwargs
  = set_tags kwargs
      {| index_len := length (List.filter (in_window max_time)
                                          (get_all_records queue));
         columns :=
           [("system_time",
             map SFloat
               (map (λ r, np_sub (Fin (exit_date r)) (Fin (arrival_date r)))
                    (List.filter (in_window max_time)
                                 (get_all_records queue))))] |}.
Proof.
  unfold get_system_times. fold (in_window max_time).
  by rewrite setitem_series_new, length_map.
Qed.

Lemma get_utilisations_unfold (queue : Simulation) (node : Node)
    (nodes : list Node) (kwargs : dict string scalar) :
  transitive_nodes queue = node :: nodes →
  Forall (λ s, 0 < total_time s) (servers node) →
  get_utilisations queue kwargs
  = Returns
      (set_tags kwargs
         {| index_len := length (servers node);
            columns :=
              [("utilisation",
                map (λ u, SFloat (Fin u))
                    (map (λ s, Qred (busy_time s / total_time s))
                         (servers node)))] |}).
Proof.
  intros Hnodes Hpos. unfold get_utilisations. rewrite Hnodes. cbn.
  rewrite (utilisations_loop_run _ _ Hpos). cbn.
  unfold setitem_list, pd_DataFrame. cbn. rewrite Nat.eqb_refl. cbn.
  by rewrite !length_map.
Qed.

Lemma utilisations_loop_raises (servers : list Server) (utilisations : list Q) :
  Exists (λ s, total_time s == 0) servers →
  utilisations_loop servers utilisations = Raises ZeroDivisionError.
Proof.
  intros H. revert utilisations.
  induction H as [s servers Hs|s servers _ IH]; intros utilisations; cbn.
  - unfold py_truediv. by rewrite (proj2 (Qeq_bool_iff _ 0) Hs).
  - unfold py_truediv. destruct (Qeq_bool (total_time s) 0); [done|].
    cbn. apply IH.
Qed.

Lemma utilisations_loop_length (servers : list Server) (acc us : list Q) :
  utilisations_loop servers acc = Returns us →
  length us = (length acc + length servers)%nat.
Proof.
  revert acc. induction servers as [|s servers IH]; intros acc; cbn.
  - intros [= <-]. lia.
  - destruct (py_truediv (busy_time s) (total_time s)) as [u|e]; [|done]. cbn.
    intros H. apply IH in H. rewrite length_app in H. cbn in H. lia.
Qed.

(** What a call of [get_utilisations] that returns has gone through. *)
Lemma get_utilisations_inv (queue : Simulation) (kwargs : dict string scalar)
    (u : Table) :
  get_utilisations queue kwargs = Returns u →
  ∃ node nodes us,
    transitive_nodes queue = node :: nodes
    ∧ length us = length (servers node)
    ∧ u = set_tags kwargs
            {| index_len := length us;
               columns := [("utilisation", map (λ x, SFloat (Fin x)) us)] |}.
Proof.
  unfold get_utilisations.
  destruct (transitive_nodes queue) as [|node nodes]; [done|]. cbn.
  destruct (utilisations_loop (servers node) []) as [us|e] eqn:Eloop; [|done].
  cbn. unfold setitem_list, pd_DataFrame. cbn.
  rewrite Nat.eqb_refl. cbn. rewrite length_map. intros [= <-].
  exists node, nodes, us. split_and!; [done| |done].
  by apply utilisations_loop_length in Eloop.
Qed.

Lemma get_results_inv (queue : Simulation) (max_time : Q)
    (kwargs : dict string scalar) (u t : Table) :
  get_results queue max_time kwargs = Returns (u, t) →
  get_utilisations queue kwargs = Returns u
  ∧ t = get_system_times queue max_time kwargs.
Proof.
  unfold get_results.
  destruct (get_utilisations queue kwargs) as [u'|e]; [|done]. cbn.
  by intros [= -> ->].
Qed.

(** Every tag of the caller is, in both tables of [get_results], a
    column that holds the tag's value on every row; a tag named after the
    measured column takes its place. *)
Theorem get_results_tags (queue : Simulation) (max_time : Q)
    (kwargs : dict string scalar) (u t : Table) (key : string)
    (value : scalar) :
  get_results queue max_time kwargs = Returns (u, t) →
  NoDup (map fst kwargs) →
  In (key, value) kwargs →
  column key u = Some (replicate (index_len u) value)
  ∧ column key t = Some (replicate (index_len t) value).
Proof.
  intros [Hu ->]%get_results_inv Hnd Hin.
  apply get_utilisations_inv in Hu as (node & nodes & us & _ & _ & ->).
  rewrite get_system_times_unfold, !set_tags_index_len.
  split; by apply set_tags_tag.
Qed.

Lemma finished_run_results :
  get_results finished_run 400 [("servers", SInt 2)]
  = Returns (finished_run_utilisations, finished_run_system_times).
Proof. by vm_compute. Qed.

Lemma get_results_tags_witness :
  column "servers" finished_run_utilisations
  = Some (replicate (index_len finished_run_utilisations) (SInt 2))
  ∧ column "servers" finished_run_system_times
    = Some (replicate (index_len finished_run_system_times) (SInt 2)).
Proof.
  apply (get_results_tags finished_run 400 [("servers", SInt 2)]
           finished_run_utilisations finished_run_system_times
           "servers" (SInt 2)).
  - vm_compute. reflexivity.
  - repeat constructor. set_solver.
  - left. reflexivity.
Defined.

(** A tag named [utilisation] replaces the measured utilisations. *)
Example get_utilisations_tag_overrides :
  get_utilisations finished_run [("utilisation", SStr "x")]
  = Returns {| index_len := 2;
               columns := [ ("utilisation", [ SStr "x"; SStr "x" ]) ] |}.
Proof. by vm_compute. Qed.

(** Both tables of [get_results] are rectangular: every column has one
    entry per row; the utilisation table has a row per server of the
    first node and the system-time table a row per record in the
    window. *)
Theorem get_results_shape (queue : Simulation) (max_time : Q)
    (kwargs : dict string scalar) (u t : Table) :
  get_results queue max_time kwargs = Returns (u, t) →
  rectangular u ∧ rectangular t
  ∧ index_len t
    = length (List.filter (in_window max_time) (get_all_records queue))
  ∧ ∃ node nodes,
      transitive_nodes queue = node :: nodes
      ∧ index_len u = length (servers node).
Proof.
  intros [Hu ->]%get_results_inv.
  apply get_utilisations_inv in Hu as (node & nodes & us & Hnodes & Hlen & ->).
  rewrite get_system_times_unfold, !set_tags_index_len. split_and!.
  - apply set_tags_rectangular. repeat constructor. cbn. by rewrite length_map.
  - apply set_tags_rectangular. repeat constructor. cbn.
    by rewrite !length_map.
  - done.
  - by exists node, nodes.
Qed.

Lemma get_results_shape_witness :
  rectangular finished_run_utilisations
  ∧ rectangular finished_run_system_times
  ∧ index_len finished_run_system_times
    = length (List.filter (in_window 400) (get_all_records finished_run))
  ∧ ∃ node nodes,
      transitive_nodes finished_run = node :: nodes
      ∧ index_len finished_run_utilisations = length (servers node).
Proof.
  apply (get_results_shape finished_run 400 [("servers", SInt 2)]
           finished_run_utilisations finished_run_system_times).
  vm_compute. reflexivity.
Defined.

(** When no tag is named after a measured column, the columns of the two
    tables are the measured column followed by the tags in the order of
    the call: the tables of different runs line up column by column. *)
Theorem get_results_columns (queue : Simulation) (max_time : Q)
    (kwargs : dict string scalar) (u t : Table) :
  get_results queue max_time kwargs = Returns (u, t) →
  NoDup ("utilisation" :: map fst kwargs) →
  NoDup ("system_time" :: map fst kwargs) →
  map fst (columns u) = "utilisation" :: map fst kwargs
  ∧ map fst (columns t) = "system_time" :: map fst kwargs.
Proof.
  intros [Hu ->]%get_results_inv Hnd Hnd'.
  apply get_utilisations_inv in Hu as (node & nodes & us & _ & _ & ->).
  rewrite get_system_times_unfold. split; by rewrite set_tags_keys.
Qed.

Lemma get_results_columns_witness :
  map fst (columns finished_run_utilisations)
  = "utilisation" :: map fst [("servers", SInt 2)]
  ∧ map fst (columns finished_run_system_times)
    = "system_time" :: map fst [("servers", SInt 2)].
Proof.
  apply (get_results_columns finished_run 400 [("servers", SInt 2)]
           finished_run_utilisations finished_run_system_times).
  - vm_compute. reflexivity.
  - apply (bool_decide_unpack _). by vm_compute.
  - apply (bool_decide_unpack _). by vm_compute.
Defined.

Lemma utilisations_loop_nonzero (servers : list Server) (utilisations : list Q) :
  Forall (λ s, ¬ total_time s == 0) servers →
  utilisations_loop servers utilisations
  = Returns (utilisations
             ++ map (λ s, Qred (busy_time s / total_time s)) servers).
Proof.
  intros H. revert utilisations.
  induction H as [|s servers Hs _ IH]; intros utilisations; cbn.
  - by rewrite app_nil_r.
  - unfold py_truediv. rewrite (Qeq_bool_false _ 0 Hs).
    cbn. rewrite IH. by rewrite <- app_assoc.
Qed.

Lemma zero_total_time_dec (servers : list Server) :
  Exists (λ s, total_time s == 0) servers
  ∨ Forall (λ s, ¬ total_time s == 0) servers.
Proof.
  induction servers as [|s servers [IH|IH]].
  - right. constructor.
  - left. by right.
  - destruct (Qeq_dec (total_time s) 0) as [E|E].
    + left. by left.
    + right. by constructor.
Qed.

(** [get_results] raises in two cases and no other: [IndexError] when
    the simulation has no node, [ZeroDivisionError] when a server of the
    first node has a total time of zero.  In every other case both tables
    are returned, whatever the records, [max_time] and the tags. *)
Theorem get_results_raises (queue : Simulation) (max_time : Q)
    (kwargs : dict string scalar) (e : exn) :
  get_results queue max_time kwargs = Raises e
  ↔ (transitive_nodes queue = [] ∧ e = IndexError)
    ∨ (∃ node nodes,
         transitive_nodes queue = node :: nodes
         ∧ Exists (λ s, total_time s == 0) (servers node)
         ∧ e = ZeroDivisionError).
Proof.
  unfold get_results, get_utilisations.
  destruct (transitive_nodes queue) as [|node nodes] eqn:Hnodes; cbn.
  - split.
    + intros [= <-]. by left.
    + intros [[_ ->]|(node & nodes & H & _)]; [done|discriminate].
  - destruct (zero_total_time_dec (servers node)) as [Hex|Hall].
    + rewrite (utilisations_loop_raises _ _ Hex). cbn. split.
      * intros [= <-]. right. by exists node, nodes.
      * intros [[H _]|(node' & nodes' & _ & _ & ->)]; [discriminate|done].
    + rewrite (utilisations_loop_nonzero _ _ Hall). cbn.
      unfold setitem_list, pd_DataFrame. cbn. rewrite Nat.eqb_refl. cbn.
      split; [discriminate|].
      intros [[H _]|(node' & nodes' & [= <- <-] & Hex & _)]; [discriminate|].
      exfalso. apply Exists_exists in Hex as (s & Hs & Hz).
      rewrite Forall_forall in Hall. by apply (Hall s).
Qed.

(** A server of the first node whose total time is zero makes
    [get_utilisations], and with it [get_results], raise
    [ZeroDivisionError]: no table is returned, not even for the other
    servers. *)
Theorem get_results_zero_total_time (queue : Simulation) (node : Node)
    (nodes : list Node) (max_time : Q) (kwargs : dict string scalar) :
  transitive_nodes queue = node :: nodes →
  Exists (λ s, total_time s == 0) (servers node) →
  get_utilisations queue kwargs = Raises ZeroDivisionError
  ∧ get_results queue max_time kwargs = Raises ZeroDivisionError.
Proof.
  intros Hnodes Hex. unfold get_results, get_utilisations. rewrite Hnodes. cbn.
  by rewrite (utilisations_loop_raises _ _ Hex).
Qed.

Lemma get_results_zero_total_time_witness :
  get_utilisations unobserved_server [] = Raises ZeroDivisionError
  ∧ get_results unobserved_server 400 [] = Raises ZeroDivisionError.
Proof.
  apply (get_results_zero_total_time unobserved_server
           (mkNode [ mkServer 1 4; mkServer 0 0 ]) [] 400 []).
  - reflexivity.
  - right. left. reflexivity.
Defined.

Lemma window_empty (max_time : Q) (r : DataRecord) :
  max_time <= 0 → in_window max_time r = false.
Proof.
  intros H. destruct (in_window max_time r) eqn:E; [|done].
  apply in_window_spec in E as [H1 H2]. exfalso.
  assert (max_time * 0.25 < max_time * 0.75) as Hlt by Lqa.lra.
  Lqa.lra.
Qed.

(** With a [max_time] that is not positive the window is empty: the
    system-time table has no row, whatever the records, and all its
    columns are empty. *)
Theorem get_system_times_no_window (queue : Simulation) (max_time : Q)
    (kwargs : dict string scalar) :
  max_time <= 0 →
  index_len (get_system_times queue max_time kwargs) = 0%nat
  ∧ Forall (λ kc, kc.2 = []) (columns (get_system_times queue max_time kwargs)).
Proof.
  intros H. rewrite get_system_times_unfold.
  assert (List.filter (in_window max_time) (get_all_records queue) = []) as ->.
  { induction (get_all_records queue) as [|r l IH]; [done|].
    cbn. by rewrite (window_empty max_time r H). }
  cbn [length map]. split; [by rewrite set_tags_index_len|].
  assert (rectangular
            (set_tags kwargs
               {| index_len := 0; columns := [("system_time", [])] |})) as Hr.
  { apply set_tags_rectangular. by repeat constructor. }
  unfold rectangular in Hr. rewrite set_tags_index_len in Hr. cbn in Hr.
  eapply Forall_impl; [exact Hr|]. intros [k c] Hc. cbn in *.
  by destruct c.
Qed.

Lemma get_system_times_no_window_witness :
  index_len (get_system_times four_arrivals (-400) [("servers", SInt 2)])
  = 0%nat
  ∧ Forall (λ kc, kc.2 = [])
      (columns (get_system_times four_arrivals (-400) [("servers", SInt 2)])).
Proof.
  apply (get_system_times_no_window four_arrivals (-400) [("servers", SInt 2)]).
  discriminate.
Defined.

(** ** [simulate_queue] and its dataset; clusters without rows *)

Lemma dict_get_zip_range {V} (h : nat * Q → V) (j n : nat) (props : list Q)
    (label : nat) (prop : Q) :
  (j ≤ label)%nat → (label < j + n)%nat →
  props !! (label - j)%nat = Some prop →
  dict_get label (map (λ lp, (lp.1, h lp)) (zip (seq j n) props))
  = Some (h (label, prop)).
Proof.
  revert j n. induction props as [|x props IH]; intros j n Hj Hn Hprop;
    [done|].
  destruct n as [|n]; [lia|]. cbn [seq zip zip_with map]. rewrite dict_get_cons.
  cbn [fst]. destruct (decide (j = label)) as [->|Hne].
  - rewrite Nat.sub_diag in Hprop. cbn in Hprop. by injection Hprop as ->.
  - apply (IH (S j) n); [lia|lia|].
    replace (label - j)%nat with (S (label - S j)) in Hprop by lia. done.
Qed.

Lemma dict_get_map_inj {K V K' V'} `{EqDecision K, EqDecision K'}
    (f : K → K') (g : K * V → V') (d : dict K V) (k : K) :
  Inj (=) (=) f →
  dict_get (f k) (map (λ kv, (f kv.1, g kv)) d)
  = match List.find (λ kv, bool_decide (kv.1 = k)) d with
    | Some kv => Some (g kv)
    | None => None
    end.
Proof.
  intros Hinj. induction d as [|[k' v] d IH]; [done|].
  cbn [map List.find fst]. rewrite dict_get_cons.
  destruct (decide (k' = k)) as [->|Hne].
  - by rewrite decide_True, bool_decide_eq_true_2.
  - rewrite decide_False by (intros E; by apply Hinj in E).
    by rewrite bool_decide_eq_false_2.
Qed.

Lemma estimate_no_rows (prop sigma : Q) :
  estimate [] prop sigma = {| arrival := NaN; service := (NaN, Fin 0) |}.
Proof. done. Qed.

(** [simulate_queue] leaves the dataset, and every frame that existed
    before the call, as it was, whatever ciw returns or raises. *)
Theorem simulate_queue_frames {RNG : Type} (ciw_seed : Z → RNG)
    (ciw_simulate : Network → Q → SR RNG Simulation) (w : @world RNG)
    (data : loc) (df : DataFrame) (props : list Q) (num_servers seed : Z)
    (max_time sigma : Q) :
  frames w !! data = Some df →
  ∀ (l : loc) (d : DataFrame),
    frames w !! l = Some d →
    frames (simulate_queue ciw_seed ciw_simulate data props num_servers seed
                           max_time sigma w).2 !! l
    = Some d.
Proof.
  intros Hdata l d Hl.
  destruct (simulate_queue_run ciw_seed ciw_simulate w data df props
              num_servers seed max_time sigma Hdata) as (σ' & -> & _ & Hsub).
  destruct (ciw_simulate _ max_time (ciw_seed seed)) as [r g]. cbn.
  by eapply lookup_weaken.
Qed.

Lemma simulate_queue_frames_witness :
  frames (simulate_queue counter_seed idle_run 0%nat [1; 2] 3 42 1460 1
                         (world_of two_clusters 7)).2 !! 0%nat
  = Some two_clusters.
Proof.
  apply (simulate_queue_frames counter_seed idle_run (world_of two_clusters 7)
           0%nat two_clusters [1; 2] 3 42 1460 1).
  - reflexivity.
  - reflexivity.
Defined.

(** The labels are taken to be [0 .. n_clusters - 1].  A label in that
    range that no row carries (the data uses other labels) still becomes a
    class of the network: its parameters are estimated from no record, so
    its arrival and service rates are NaN and its shift 0. *)
Theorem simulate_queue_empty_cluster {RNG : Type} (ciw_seed : Z → RNG)
    (ciw_simulate : Network → Q → SR RNG Simulation) (w : @world RNG)
    (data : loc) (df : DataFrame) (props : list Q) (num_servers seed : Z)
    (max_time sigma : Q) (label : nat) (prop : Q) :
  frames w !! data = Some df →
  (label < nunique (map (λ ir : Z * Row, cluster ir.2) df))%nat →
  props !! label = Some prop →
  cluster_rows label df = [] →
  ∃ all_queue_params σ',
    simulate_queue ciw_seed ciw_simulate data props num_servers seed max_time
                   sigma w
    = (let (r, g) :=
         ciw_simulate (network_of all_queue_params num_servers) max_time
                      (ciw_seed seed) in
       (r, {| frames := σ'; rng := g |}))
    ∧ dict_get label all_queue_params
      = Some {| arrival := NaN; service := (NaN, Fin 0) |}
    ∧ dict_get (class_name label)
        (arrival_distributions (network_of all_queue_params num_servers))
      = Some [ Exponential NaN ]
    ∧ dict_get (class_name label)
        (service_distributions (network_of all_queue_params num_servers))
      = Some [ Shifted (ShiftedExponential.new NaN (Fin 0)) ].
Proof.
  intros Hdata Hlabel Hprop Hrows.
  destruct (simulate_queue_run ciw_seed ciw_simulate w data df props
              num_servers seed max_time sigma Hdata) as (σ' & E & _ & _).
  exists (expected_params df props sigma), σ'. split; [done|].
  assert (dict_get label (expected_params df props sigma)
          = Some {| arrival := NaN; service := (NaN, Fin 0) |}) as Hget.
  { unfold expected_params.
    rewrite (dict_get_zip_range
               (λ lp, estimate (cluster_rows lp.1 df) lp.2 sigma) 0 _ props
               label prop); [|lia|lia|by rewrite Nat.sub_0_r].
    cbn [fst snd]. by rewrite Hrows. }
  split; [done|].
  pose proof (expected_params_keys df props sigma) as Hkeys.
  assert (∀ g : nat * queue_params → list distribution,
            NoDup (map (λ lp, ((λ lp, (class_name lp.1, g lp)) lp).1)
                       (expected_params df props sigma))) as Hnd.
  { intros g. cbn. rewrite <- (map_map fst class_name), Hkeys.
    apply class_names_NoDup. }
  unfold network_of. cbn [arrival_distributions service_distributions].
  rewrite !dict_comprehension_map by apply Hnd.
  unfold dict_get in Hget.
  rewrite !(dict_get_map_inj class_name _ _ label class_name_inj).
  destruct (List.find _ (expected_params df props sigma)) as [[l p]|]; [|done].
  cbn in Hget. injection Hget as ->. done.
Qed.

Lemma simulate_queue_empty_cluster_witness :
  ∃ all_queue_params σ',
    simulate_queue counter_seed idle_run 0%nat [1; 2] 3 42 1460 1
                   (world_of clusters_from_one 7)
    = (let (r, g) :=
         idle_run (network_of all_queue_params 3) 1460 (counter_seed 42) in
       (r, {| frames := σ'; rng := g |}))
    ∧ dict_get 0%nat all_queue_params
      = Some {| arrival := NaN; service := (NaN, Fin 0) |}
    ∧ dict_get (class_name 0)
        (arrival_distributions (network_of all_queue_params 3))
      = Some [ Exponential NaN ]
    ∧ dict_get (class_name 0)
        (service_distributions (network_of all_queue_params 3))
      = Some [ Shifted (ShiftedExponential.new NaN (Fin 0)) ].
Proof.
  apply (simulate_queue_empty_cluster counter_seed idle_run
           (world_of clusters_from_one 7) 0%nat clusters_from_one [1; 2] 3 42
           1460 1 0%nat 1).
  - reflexivity.
  - vm_compute. lia.
  - reflexivity.
  - reflexivity.
Defined.

(** ** The distribution of a sample *)

Lemma ln_ge_exp (a y : R) : (0 < a)%R → (y <= ln a ↔ exp y <= a)%R.
Proof.
  intros Ha. split; intros H.
  - rewrite <- (exp_ln a Ha). destruct H as [H|H]; [|rewrite H; lra].
    left. by apply exp_increasing.
  - rewrite <- (ln_exp y). destruct H as [H|H]; [|rewrite H; lra].
    left. apply ln_increasing; [apply exp_pos|done].
Qed.

(** For a positive rate, [sample] is the quantile function of the
    shifted exponential distribution applied to the uniform draw [u]: the
    sample is at most [x] exactly when [u] is at most
    [1 - exp (- rate * (x - shift))]; and each sample takes exactly one
    uniform draw from the generator. *)
Theorem sample_quantile {RNG : Type} (random : RNG → R * RNG)
    (self : ShiftedExponential.t R) (g : RNG) (x : R) :
  (0 < ShiftedExponential.rate self)%R →
  (0 <= (random g).1 < 1)%R →
  ∃ s : R,
    ShiftedExponential.sample random self g = (Returns s, (random g).2)
    ∧ (s <= x
       ↔ (random g).1
         <= 1 - exp (- ShiftedExponential.rate self
                       * (x - ShiftedExponential.shift self)))%R.
Proof.
  intros Hrate Hu. unfold ShiftedExponential.sample.
  unfold mbind, mret, SR_bind, SR_ret, expovariate.
  destruct (random g) as [u g']. cbn [fst snd] in *.
  destruct (Req_dec_T (ShiftedExponential.rate self) 0) as [E|_]; [lra|].
  eexists. split; [reflexivity|].
  set (rate := ShiftedExponential.rate self) in *.
  set (shift := ShiftedExponential.shift self).
  assert (0 < 1 - u)%R as Ha by lra.
  pose proof (ln_ge_exp (1 - u) (- rate * (x - shift)) Ha) as Hln.
  assert (shift + - ln (1 - u) / rate <= x
          ↔ - rate * (x - shift) <= ln (1 - u))%R as ->.
  { split; intros H.
    - assert (- ln (1 - u) / rate * rate <= (x - shift) * rate)%R as H'.
      { apply Rmult_le_compat_r; lra. }
      unfold Rdiv in H'. rewrite Rmult_assoc, Rinv_l in H' by lra. lra.
    - assert (- ln (1 - u) / rate <= x - shift)%R; [|lra].
      apply (Rmult_le_reg_r rate); [done|].
      unfold Rdiv. rewrite Rmult_assoc, Rinv_l by lra. lra. }
  rewrite Hln. split; lra.
Qed.

Lemma sample_quantile_witness :
  ∃ s : R,
    ShiftedExponential.sample zero_draws (ShiftedExponential.new 2%R 1%R) tt
    = (Returns s, (zero_draws tt).2)
    ∧ (s <= 3 ↔ (zero_draws tt).1 <= 1 - exp (- 2 * (3 - 1)))%R.
Proof.
  apply (sample_quantile zero_draws (ShiftedExponential.new 2%R 1%R) tt 3%R).
  - cbn. lra.
  - cbn. lra.
Defined.
